(** * gonflux: a NetFlow v5 collector (main.go)

    A shallow embedding of the decode / enrich / render pipeline of
    [main.go], and the properties of it that the specification states.

    Conventions.
    - A Go [uintN] value is a [Z]; every conversion and every arithmetic
      operation that can wrap is written with its reduction modulo [2^N].
    - A datagram is a [list byte]; [encoding/binary] is embedded as a cursor
      over that list, most significant byte first.
    - The process state touched by the code (the DNS cache, the wall clock,
      the resolver, the log, the output channel) is an explicit [World]
      threaded through a small state-and-panic monad. *)

From Stdlib Require Import ZArith Lia List String Ascii.
From Stdlib Require Strings.Byte.
From stdpp Require Import base option list gmap strings pretty.

Local Open Scope Z_scope.

(** ** Fixed-width unsigned integers *)

Definition uint8 (z : Z) : Z := z mod 2 ^ 8.
Definition uint16 (z : Z) : Z := z mod 2 ^ 16.
Definition uint32 (z : Z) : Z := z mod 2 ^ 32.
Definition uint64 (z : Z) : Z := z mod 2 ^ 64.

Definition is_uint8 (z : Z) : Prop := 0 <= z < 2 ^ 8.
Definition is_uint16 (z : Z) : Prop := 0 <= z < 2 ^ 16.
Definition is_uint32 (z : Z) : Prop := 0 <= z < 2 ^ 32.

(** ** Bytes *)

Abbreviation byte := Byte.byte.

Definition byte_val (b : byte) : Z := Z.of_N (Byte.to_N b).

(** Go's [byte(x)] conversion: the low eight bits. *)
Definition to_byte (z : Z) : byte :=
  match Byte.of_N (Z.to_N (uint8 z)) with
  | Some b => b
  | None => Byte.x00
  end.

(** ** encoding/binary, big endian

    [binary.Read] first reads [size] bytes with [io.ReadFull] and only then
    decodes the fields one after the other from that block. *)

Inductive error : Type :=
  | EOF
  | ErrUnexpectedEOF
  | DNSError (msg : string).

(** [io.ReadFull] on a [bytes.Buffer]: nothing left is [EOF], too little is
    [ErrUnexpectedEOF] (and the buffer is drained). *)
Definition ReadFull (size : nat) (buf : list byte) : (list byte + error) * list byte :=
  match buf with
  | [] => (inr EOF, [])
  | _ =>
      if (length buf <? size)%nat then (inr ErrUnexpectedEOF, [])
      else (inl (take size buf), drop size buf)
  end.

(** The decoder of [encoding/binary]: a cursor over the block. *)
Definition decoder (A : Type) : Type := list byte -> A * list byte.

Definition dec_ret {A} (a : A) : decoder A := fun bs => (a, bs).
Definition dec_bind {A B} (d : decoder A) (k : A -> decoder B) : decoder B :=
  fun bs => let (a, bs') := d bs in k a bs'.

Declare Scope dec_scope.
Delimit Scope dec_scope with dec.
Notation "'let*' x ':=' d 'in' k" := (dec_bind d (fun x => k))
  (at level 10, x name, d at level 100, k at level 200) : dec_scope.

Definition nth_byte (bs : list byte) (i : nat) : Z :=
  byte_val (nth i bs Byte.x00).

Definition dec_uint8 : decoder Z :=
  fun bs => (nth_byte bs 0, drop 1 bs).

(** [binary.BigEndian.Uint16]: [uint16(b[1]) | uint16(b[0])<<8]. *)
Definition dec_uint16 : decoder Z :=
  fun bs =>
    (Z.lor (nth_byte bs 1) (Z.shiftl (nth_byte bs 0) 8), drop 2 bs).

(** [binary.BigEndian.Uint32]:
    [uint32(b[3]) | uint32(b[2])<<8 | uint32(b[1])<<16 | uint32(b[0])<<24]. *)
Definition dec_uint32 : decoder Z :=
  fun bs =>
    (Z.lor (Z.lor (Z.lor (nth_byte bs 3) (Z.shiftl (nth_byte bs 2) 8))
                  (Z.shiftl (nth_byte bs 1) 16))
           (Z.shiftl (nth_byte bs 0) 24),
     drop 4 bs).

(** A blank field [_] of [n] bytes: the bytes are consumed, nothing is kept. *)
Definition dec_skip (n : nat) : decoder unit :=
  fun bs => (tt, drop n bs).

(** ** NetFlow v5 structures *)

Record header : Type := mkHeader {
  Version : Z;           (* uint16 *)
  FlowRecords : Z;       (* uint16 *)
  Uptime : Z;            (* uint32 *)
  UnixSec : Z;           (* uint32 *)
  UnixNsec : Z;          (* uint32 *)
  FlowSeqNum : Z;        (* uint32 *)
  EngineType : Z;        (* uint8 *)
  EngineID : Z;          (* uint8 *)
  SamplingInterval : Z   (* uint16 *)
}.

Record binaryRecord : Type := mkBinaryRecord {
  Ipv4SrcAddrInt : Z;    (* uint32 *)
  Ipv4DstAddrInt : Z;    (* uint32 *)
  Ipv4NextHopInt : Z;    (* uint32 *)
  InputSnmp : Z;         (* uint16 *)
  OutputSnmp : Z;        (* uint16 *)
  InPkts : Z;            (* uint32 *)
  InBytes : Z;           (* uint32 *)
  FirstInt : Z;          (* uint32 *)
  LastInt : Z;           (* uint32 *)
  L4SrcPort : Z;         (* uint16 *)
  L4DstPort : Z;         (* uint16 *)
  (* _ uint8 *)
  TCPFlags : Z;          (* uint8 *)
  Protocol : Z;          (* uint8 *)
  SrcTos : Z;            (* uint8 *)
  SrcAs : Z;             (* uint16 *)
  DstAs : Z;             (* uint16 *)
  SrcMask : Z;           (* uint8 *)
  DstMask : Z            (* uint8 *)
  (* _ uint16 *)
}.

(** [binary.Size] of the two structures. *)
Definition header_size : nat := 24.
Definition binaryRecord_size : nat := 48.

Local Open Scope dec_scope.

Definition dec_header : decoder header :=
  let* version := dec_uint16 in
  let* flowRecords := dec_uint16 in
  let* uptime := dec_uint32 in
  let* unixSec := dec_uint32 in
  let* unixNsec := dec_uint32 in
  let* flowSeqNum := dec_uint32 in
  let* engineType := dec_uint8 in
  let* engineID := dec_uint8 in
  let* samplingInterval := dec_uint16 in
  dec_ret (mkHeader version flowRecords uptime unixSec unixNsec flowSeqNum
                    engineType engineID samplingInterval).

Definition dec_binaryRecord : decoder binaryRecord :=
  let* src := dec_uint32 in
  let* dst := dec_uint32 in
  let* nextHop := dec_uint32 in
  let* input := dec_uint16 in
  let* output := dec_uint16 in
  let* pkts := dec_uint32 in
  let* octets := dec_uint32 in
  let* first := dec_uint32 in
  let* last := dec_uint32 in
  let* srcPort := dec_uint16 in
  let* dstPort := dec_uint16 in
  let* _ := dec_skip 1 in
  let* flags := dec_uint8 in
  let* proto := dec_uint8 in
  let* tos := dec_uint8 in
  let* srcAs := dec_uint16 in
  let* dstAs := dec_uint16 in
  let* srcMask := dec_uint8 in
  let* dstMask := dec_uint8 in
  let* _ := dec_skip 2 in
  dec_ret (mkBinaryRecord src dst nextHop input output pkts octets first last
                          srcPort dstPort flags proto tos srcAs dstAs
                          srcMask dstMask).

Local Close Scope dec_scope.

(** [binary.Read(buf, binary.BigEndian, &v)] for the two structures: the
    value read (or the error), and what is left of the buffer. *)
Definition Read_header (buf : list byte) : (header + error) * list byte :=
  match ReadFull header_size buf with
  | (inl block, rest) => (inl (fst (dec_header block)), rest)
  | (inr e, rest) => (inr e, rest)
  end.

Definition Read_binaryRecord (buf : list byte)
  : (binaryRecord + error) * list byte :=
  match ReadFull binaryRecord_size buf with
  | (inl block, rest) => (inl (fst (dec_binaryRecord block)), rest)
  | (inr e, rest) => (inr e, rest)
  end.

(** ** The wire layout, written the other way

    The repository only reads datagrams. The writer below lays the fields of
    a header and of a flow record out as the structures declare them, most
    significant byte first; it is what the round trip is stated against.
    The three reserved bytes of a record are taken from [padding]. *)

Definition enc_uint8 (z : Z) : list byte := [to_byte z].
Definition enc_uint16 (z : Z) : list byte :=
  [to_byte (Z.shiftr z 8); to_byte z].
Definition enc_uint32 (z : Z) : list byte :=
  [to_byte (Z.shiftr z 24); to_byte (Z.shiftr z 16);
   to_byte (Z.shiftr z 8); to_byte z].

Definition encode_header (h : header) : list byte :=
  enc_uint16 (Version h) ++ enc_uint16 (FlowRecords h) ++
  enc_uint32 (Uptime h) ++ enc_uint32 (UnixSec h) ++
  enc_uint32 (UnixNsec h) ++ enc_uint32 (FlowSeqNum h) ++
  enc_uint8 (EngineType h) ++ enc_uint8 (EngineID h) ++
  enc_uint16 (SamplingInterval h).

Record padding : Type := mkPadding { pad1 : byte; pad2 : byte; pad3 : byte }.

Definition encode_binaryRecord (p : padding) (r : binaryRecord) : list byte :=
  enc_uint32 (Ipv4SrcAddrInt r) ++ enc_uint32 (Ipv4DstAddrInt r) ++
  enc_uint32 (Ipv4NextHopInt r) ++
  enc_uint16 (InputSnmp r) ++ enc_uint16 (OutputSnmp r) ++
  enc_uint32 (InPkts r) ++ enc_uint32 (InBytes r) ++
  enc_uint32 (FirstInt r) ++ enc_uint32 (LastInt r) ++
  enc_uint16 (L4SrcPort r) ++ enc_uint16 (L4DstPort r) ++
  [pad1 p] ++
  enc_uint8 (TCPFlags r) ++ enc_uint8 (Protocol r) ++ enc_uint8 (SrcTos r) ++
  enc_uint16 (SrcAs r) ++ enc_uint16 (DstAs r) ++
  enc_uint8 (SrcMask r) ++ enc_uint8 (DstMask r) ++
  [pad2 p; pad3 p].

Definition encode_records (prs : list (padding * binaryRecord)) : list byte :=
  flat_map (fun pr => encode_binaryRecord (fst pr) (snd pr)) prs.

(** The fields of a structure hold values of their declared width. *)
Definition wf_header (h : header) : Prop :=
  is_uint16 (Version h) /\ is_uint16 (FlowRecords h) /\
  is_uint32 (Uptime h) /\ is_uint32 (UnixSec h) /\
  is_uint32 (UnixNsec h) /\ is_uint32 (FlowSeqNum h) /\
  is_uint8 (EngineType h) /\ is_uint8 (EngineID h) /\
  is_uint16 (SamplingInterval h).

Definition wf_binaryRecord (r : binaryRecord) : Prop :=
  is_uint32 (Ipv4SrcAddrInt r) /\ is_uint32 (Ipv4DstAddrInt r) /\
  is_uint32 (Ipv4NextHopInt r) /\
  is_uint16 (InputSnmp r) /\ is_uint16 (OutputSnmp r) /\
  is_uint32 (InPkts r) /\ is_uint32 (InBytes r) /\
  is_uint32 (FirstInt r) /\ is_uint32 (LastInt r) /\
  is_uint16 (L4SrcPort r) /\ is_uint16 (L4DstPort r) /\
  is_uint8 (TCPFlags r) /\ is_uint8 (Protocol r) /\ is_uint8 (SrcTos r) /\
  is_uint16 (SrcAs r) /\ is_uint16 (DstAs r) /\
  is_uint8 (SrcMask r) /\ is_uint8 (DstMask r).

(** ** Decoded records *)

Record decodedRecord : Type := mkDecodedRecord {
  embedded_header : header;
  embedded_binaryRecord : binaryRecord;
  Host : string;
  SamplingAlgorithm : Z;  (* uint8 *)
  Ipv4SrcAddr : string;
  Ipv4DstAddr : string;
  Ipv4NextHop : string;
  SrcHostName : string;
  DstHostName : string;
  Duration : Z            (* uint16 *)
}.

Definition set_SamplingInterval (v : Z) (h : header) : header :=
  mkHeader (Version h) (FlowRecords h) (Uptime h) (UnixSec h) (UnixNsec h)
           (FlowSeqNum h) (EngineType h) (EngineID h) v.

Definition set_Version (v : Z) (h : header) : header :=
  mkHeader v (FlowRecords h) (Uptime h) (UnixSec h) (UnixNsec h)
           (FlowSeqNum h) (EngineType h) (EngineID h) (SamplingInterval h).

Definition set_FlowRecords (v : Z) (h : header) : header :=
  mkHeader (Version h) v (Uptime h) (UnixSec h) (UnixNsec h)
           (FlowSeqNum h) (EngineType h) (EngineID h) (SamplingInterval h).

Definition with_header (f : header -> header) (d : decodedRecord)
  : decodedRecord :=
  mkDecodedRecord (f (embedded_header d)) (embedded_binaryRecord d) (Host d)
                  (SamplingAlgorithm d) (Ipv4SrcAddr d) (Ipv4DstAddr d)
                  (Ipv4NextHop d) (SrcHostName d) (DstHostName d) (Duration d).

Definition set_SamplingAlgorithm (v : Z) (d : decodedRecord) : decodedRecord :=
  mkDecodedRecord (embedded_header d) (embedded_binaryRecord d) (Host d)
                  v (Ipv4SrcAddr d) (Ipv4DstAddr d)
                  (Ipv4NextHop d) (SrcHostName d) (DstHostName d) (Duration d).

Definition set_SrcHostName (v : string) (d : decodedRecord) : decodedRecord :=
  mkDecodedRecord (embedded_header d) (embedded_binaryRecord d) (Host d)
                  (SamplingAlgorithm d) (Ipv4SrcAddr d) (Ipv4DstAddr d)
                  (Ipv4NextHop d) v (DstHostName d) (Duration d).

Definition set_DstHostName (v : string) (d : decodedRecord) : decodedRecord :=
  mkDecodedRecord (embedded_header d) (embedded_binaryRecord d) (Host d)
                  (SamplingAlgorithm d) (Ipv4SrcAddr d) (Ipv4DstAddr d)
                  (Ipv4NextHop d) (SrcHostName d) v (Duration d).

(** ** time.Time

    An instant is counted in nanoseconds from the zero [Time]; the location
    pointer is [nil] (UTC) for the zero value and [Local] for what
    [time.Now] returns. [==] on [Time] compares both. *)

Inductive Location : Type := UTC | Local.

Record Time : Type := mkTime { instant : Z; loc : Location }.

Definition Time_zero : Time := mkTime 0 UTC.

Definition Time_After (t u : Time) : bool := instant u <? instant t.

Definition nanoseconds_per_day : Z := 24 * 60 * 60 * 1000000000.

(** ** The DNS cache *)

Record cacheRecord : Type := mkCacheRecord {
  Hostname : string;
  timeout : Time
}.

Definition cacheRecord_zero : cacheRecord := mkCacheRecord "" Time_zero.

Global Instance Location_eq_dec : EqDecision Location.
Proof. solve_decision. Defined.
Global Instance Time_eq_dec : EqDecision Time.
Proof. solve_decision. Defined.
Global Instance cacheRecord_eq_dec : EqDecision cacheRecord.
Proof. solve_decision. Defined.

(** ** net.IP *)

Definition IP : Type := list byte.

Definition v4InV6Prefix : list byte :=
  replicate 10 Byte.x00 ++ [Byte.xff; Byte.xff].

(** [net.IPv4(a, b, c, d)]: the 16-byte form of the address. *)
Definition net_IPv4 (a b c d : byte) : IP := v4InV6Prefix ++ [a; b; c; d].

Definition isZeros (p : list byte) : bool := forallb (Byte.eqb Byte.x00) p.

Definition IP_To4 (ip : IP) : IP :=
  if (length ip =? 4)%nat then ip
  else if (length ip =? 16)%nat && isZeros (take 10 ip)
          && Byte.eqb (nth 10 ip Byte.x00) Byte.xff
          && Byte.eqb (nth 11 ip Byte.x00) Byte.xff
       then drop 12 ip
       else [].

(** Decimal text of an unsigned integer (what [%d] and the octets of an
    address print). *)
Definition itoa (z : Z) : string := pretty (Z.to_N z).

Definition dotted (a b c d : Z) : string :=
  itoa a +:+ "." +:+ itoa b +:+ "." +:+ itoa c +:+ "." +:+ itoa d.

(** ** What the process does not own

    The wall clock, the time zone and the resolver are outside the program.
    The [k]-th reading of the clock and the answer to the [k]-th resolution
    are given by the environment; so is the text of an address that is not an
    IPv4 one, which only the sender's address can be. [Local_next_day t] is
    the instant at which the wall clock of the Local zone shows, on the next
    calendar day, what it shows at [t]: 24 hours after [t] while the zone
    keeps its offset from UTC, 23 or 25 hours across a daylight-saving
    change. *)

Record Env : Type := mkEnv {
  clock_reading : nat -> Z;
  resolver : nat -> string -> list string * option error;
  IP_String_other : IP -> string;
  Local_next_day : Z -> Z
}.

(** [t.AddDate(0, 0, 1)]: the date of [t] in its location moved on by one
    day, the time of day kept. UTC has no offset changes; for a time in the
    Local zone the result is read from the zone. *)
Definition Time_AddDate_0_0_1 (env : Env) (t : Time) : Time :=
  mkTime (match loc t with
          | UTC => instant t + nanoseconds_per_day
          | Local => Local_next_day env (instant t)
          end)
         (loc t).

(** [ip.String()] *)
Definition IP_String (env : Env) (ip : IP) : string :=
  match ip with
  | [] => "<nil>"
  | _ =>
      match IP_To4 ip with
      | [a; b; c; d] => dotted (byte_val a) (byte_val b) (byte_val c) (byte_val d)
      | _ => IP_String_other env ip
      end
  end.

Record UDPAddr : Type := mkUDPAddr { UDPAddr_IP : IP; UDPAddr_Port : Z }.

(** ** The state of the process *)

Record World : Type := mkWorld {
  cache : gmap string cacheRecord;   (* the package-level map *)
  clock : nat;                       (* readings of the clock so far *)
  lookups : list string;             (* resolutions so far, oldest first *)
  logs : list string;                (* lines given to [log.Printf] *)
  outputChannel : list decodedRecord (* records sent, oldest first *)
}.

Definition World_init : World := mkWorld ∅ 0 [] [] [].

Inductive outcome (A : Type) : Type :=
  | Ok (a : A) (w : World)
  | Panic (msg : string).
Arguments Ok {A} a w.
Arguments Panic {A} msg.

Definition M (A : Type) : Type := World -> outcome A.

Definition ret {A} (a : A) : M A := fun w => Ok a w.
Definition bind {A B} (m : M A) (k : A -> M B) : M B :=
  fun w => match m w with
           | Ok a w' => k a w'
           | Panic msg => Panic msg
           end.
Definition panic {A} (msg : string) : M A := fun _ => Panic msg.

Declare Scope go_scope.
Delimit Scope go_scope with go.
Notation "'let*' x ':=' m 'in' k" := (bind m (fun x => k))
  (at level 10, x name, m at level 100, k at level 200) : go_scope.
Notation "m ';;' k" := (bind m (fun _ => k))
  (at level 100, k at level 200, right associativity) : go_scope.

(** [time.Now()] *)
Definition time_Now (env : Env) : M Time :=
  fun w =>
    Ok (mkTime (clock_reading env (clock w)) Local)
       (mkWorld (cache w) (S (clock w)) (lookups w) (logs w) (outputChannel w)).

(** [net.LookupAddr(addr)] *)
Definition net_LookupAddr (env : Env) (addr : string)
  : M (list string * option error) :=
  fun w =>
    Ok (resolver env (length (lookups w)) addr)
       (mkWorld (cache w) (clock w) (lookups w ++ [addr]) (logs w)
                (outputChannel w)).

(** [cache[key]] under the lock: the zero record when the key is absent. *)
Definition cache_load (key : string) : M cacheRecord :=
  fun w => Ok (default cacheRecord_zero (cache w !! key)) w.

(** [cache[key] = r] under the lock. *)
Definition cache_store (key : string) (r : cacheRecord) : M unit :=
  fun w =>
    Ok tt (mkWorld (<[key := r]> (cache w)) (clock w) (lookups w) (logs w)
                   (outputChannel w)).

(** [log.Printf] *)
Definition log_Printf (line : string) : M unit :=
  fun w =>
    Ok tt (mkWorld (cache w) (clock w) (lookups w) (logs w ++ [line])
                   (outputChannel w)).

(** [outputChannel <- d]: the record joins the queue (a full channel makes
    the sender wait; it never drops the record). *)
Definition chan_send (d : decodedRecord) : M unit :=
  fun w =>
    Ok tt (mkWorld (cache w) (clock w) (lookups w) (logs w)
                   (outputChannel w ++ [d])).

(** [s[0]] on a slice of strings. *)
Definition index_panic : string :=
  "runtime error: index out of range [0] with length 0".

Definition index0 (s : list string) : M string :=
  match s with
  | x :: _ => ret x
  | [] => panic index_panic
  end.

Definition Error (e : error) : string :=
  match e with
  | EOF => "EOF"
  | ErrUnexpectedEOF => "unexpected EOF"
  | DNSError msg => msg
  end.

Local Open Scope go_scope.

(** ** main.go *)

Definition intToIPv4Addr (intAddr : Z) : IP :=
  net_IPv4 (to_byte (Z.shiftr intAddr 24))
           (to_byte (Z.shiftr intAddr 16))
           (to_byte (Z.shiftr intAddr 8))
           (to_byte intAddr).

(** [cacheMutex] is held around the load and around the store, never
    across the resolution; the embedding runs one call at a time, so taking
    and releasing the lock leaves no trace. In
    [hostnameFromCache == cacheRecord{} || time.Now().After(...)] the clock is
    read only when the left operand is false. *)
Definition lookUpWithCache (env : Env) (ipAddr : string) : M string :=
  let hostname := ipAddr in
  let* hostnameFromCache := cache_load ipAddr in
  let* expired :=
    (if bool_decide (hostnameFromCache = cacheRecord_zero) then ret true
     else let* now := time_Now env in
          ret (Time_After now (timeout hostnameFromCache))) in
  if expired : bool then
    let* answer := net_LookupAddr env ipAddr in
    let* hostname :=
      (match snd answer with
       | None => index0 (fst answer)
       | Some _ => ret hostname
       end) in
    let* now := time_Now env in
    cache_store ipAddr (mkCacheRecord hostname (Time_AddDate_0_0_1 env now)) ;;
    ret hostname
  else
    ret (Hostname hostnameFromCache).

(** The composite literal copies [*header] and [*binRecord]; the two
    assignments at the end change the copy held by the decoded record. *)
Definition decodeRecord (env : Env) (header : header) (binRecord : binaryRecord)
                        (remoteAddr : UDPAddr) : M decodedRecord :=
  let decodedRecord :=
    mkDecodedRecord
      header
      binRecord
      (IP_String env (UDPAddr_IP remoteAddr))
      0
      (IP_String env (intToIPv4Addr (Ipv4SrcAddrInt binRecord)))
      (IP_String env (intToIPv4Addr (Ipv4DstAddrInt binRecord)))
      (IP_String env (intToIPv4Addr (Ipv4NextHopInt binRecord)))
      ""
      ""
      (uint16 (uint32 (LastInt binRecord - FirstInt binRecord) / 1000)) in
  let* srcHostName := lookUpWithCache env (Ipv4SrcAddr decodedRecord) in
  let decodedRecord := set_SrcHostName srcHostName decodedRecord in
  let* dstHostName := lookUpWithCache env (Ipv4DstAddr decodedRecord) in
  let decodedRecord := set_DstHostName dstHostName decodedRecord in
  let decodedRecord :=
    set_SamplingAlgorithm
      (uint8 (Z.land 3 (Z.shiftr (SamplingInterval (embedded_header decodedRecord)) 14)))
      decodedRecord in
  let decodedRecord :=
    with_header
      (set_SamplingInterval
         (Z.land 16383 (SamplingInterval (embedded_header decodedRecord))))
      decodedRecord in
  ret decodedRecord.

(** [fmt.Sprintf] for the verbs the program uses: [%s] with a string and
    [%d] with an unsigned integer. A verb without a matching operand prints
    one of the [%!] markers of the [fmt] package (their text is shortened
    here; the format of [formatLineProtocol] never reaches them). *)
Inductive operand : Type :=
  | OpString (s : string)
  | OpUint (z : Z).

Fixpoint Sprintf (format : string) (a : list operand) : string :=
  match format with
  | EmptyString =>
      match a with
      | [] => ""
      | _ :: _ => "%!(EXTRA)"
      end
  | String "%"%char (String verb rest) =>
      match a with
      | [] => "%!" +:+ String verb "(MISSING)" +:+ Sprintf rest []
      | x :: a' =>
          match verb, x with
          | "s"%char, OpString s => s
          | "d"%char, OpUint z => itoa z
          | _, OpString s => "%!" +:+ String verb ("(string=" +:+ s +:+ ")")
          | _, OpUint z => "%!" +:+ String verb ("(uint=" +:+ itoa z +:+ ")")
          end +:+ Sprintf rest a'
      end
  | String c rest => String c (Sprintf rest a)
  end.

Definition formatLineProtocol (record : decodedRecord) : string :=
  Sprintf
    "netflow,host=%s,srcAddr=%s,dstAddr=%s,srcHostName=%s,dstHostName=%s,protocol=%d,srcPort=%d,dstPort=%d,input=%d,output=%d inBytes=%d,inPackets=%d,duration=%d %d"
    [ OpString (Host record); OpString (Ipv4SrcAddr record);
      OpString (Ipv4DstAddr record); OpString (SrcHostName record);
      OpString (DstHostName record);
      OpUint (Protocol (embedded_binaryRecord record));
      OpUint (L4SrcPort (embedded_binaryRecord record));
      OpUint (L4DstPort (embedded_binaryRecord record));
      OpUint (InputSnmp (embedded_binaryRecord record));
      OpUint (OutputSnmp (embedded_binaryRecord record));
      OpUint (InBytes (embedded_binaryRecord record));
      OpUint (InPkts (embedded_binaryRecord record));
      OpUint (Duration record);
      OpUint (uint64 (uint64 (uint64 (UnixSec (embedded_header record))
                               * uint64 1000000000)
                      + uint64 (UnixNsec (embedded_header record)))) ].

(** The body of the [for] loop of [handlePacket], with [n] iterations left. *)
Fixpoint handlePacket_loop (env : Env) (n : nat) (header : header)
                           (buf : list byte) (remoteAddr : UDPAddr) : M unit :=
  match n with
  | O => ret tt
  | S n' =>
      match Read_binaryRecord buf with
      | (inr err, _) =>
          log_Printf ("binary.Read failed: " +:+ Error err)
      | (inl record, buf') =>
          let* decodedRecord := decodeRecord env header record remoteAddr in
          chan_send decodedRecord ;;
          handlePacket_loop env n' header buf' remoteAddr
      end
  end.

(** [int(header.FlowRecords)] iterations at most; a failed read ends the
    loop. *)
Definition handlePacket (env : Env) (buf : list byte) (remoteAddr : UDPAddr)
  : M unit :=
  match Read_header buf with
  | (inr err, _) => log_Printf ("Error: " +:+ Error err)
  | (inl header, buf') =>
      handlePacket_loop env (Z.to_nat (FlowRecords header)) header buf'
                        remoteAddr
  end.

Local Close Scope go_scope.

(** ** The UDP sink

    [pipeOutputToUDPSocket] serves a connection with the inner [for] loop:
    take a record from the channel, render it, set the write deadline, write
    one datagram; a failed write is logged and ends the loop. The outcome of
    the [k]-th write (nothing, or the text of its error) is given by the
    network. The loop is embedded on the backlog of the channel: with
    nothing left to receive it waits. *)

Record Net : Type := mkNet {
  write_error : nat -> string -> option string
}.

Record Sink : Type := mkSink {
  sink_world : World;
  datagrams : list string;   (* payloads written to the socket, oldest first *)
  writes : nat               (* calls of [conn.Write] so far *)
}.

Inductive loop_exit : Type :=
  | ChannelEmpty                (* blocked in [<-outputChannel] *)
  | SendError (msg : string).   (* [break] after a failed write *)

Fixpoint send_loop (net : Net) (backlog : list decodedRecord) (s : Sink)
  : loop_exit * Sink :=
  match backlog with
  | [] => (ChannelEmpty, s)
  | record :: backlog' =>
      let buf := formatLineProtocol record in
      let w := sink_world s in
      (* conn.SetDeadline(time.Now().Add(3 * time.Second)) reads the clock *)
      match write_error net (writes s) buf with
      | Some msg =>
          (SendError msg,
           mkSink (mkWorld (cache w) (S (clock w)) (lookups w)
                           (logs w ++ ["Send Error: " +:+ msg]) backlog')
                  (datagrams s) (S (writes s)))
      | None =>
          send_loop net backlog'
            (mkSink (mkWorld (cache w) (S (clock w)) (lookups w) (logs w)
                             backlog')
                    (datagrams s ++ [buf]) (S (writes s)))
      end
  end.

(** The inner loop of [pipeOutputToUDPSocket] on the records now in the
    channel. *)
Definition serve_connection (net : Net) (s : Sink) : loop_exit * Sink :=
  send_loop net (outputChannel (sink_world s)) s.

(** ** Notions the properties are stated with *)

(** The contract of the resolver: an answer without an error carries at
    least one name. *)
Definition resolver_ok (env : Env) : Prop :=
  forall (k : nat) (addr : string) (names : list string),
    resolver env k addr = (names, None) -> names <> [].


(** Every entry of the cache was stored by [lookUpWithCache]: none is the
    zero record, which the code reads as an absent key. *)
Definition cache_wf (w : World) : Prop :=
  forall (key : string) (e : cacheRecord),
    cache w !! key = Some e -> e <> cacheRecord_zero.

(** The entry for [key], when there is one and the clock has not passed its
    expiry. *)
Definition cache_hit (env : Env) (key : string) (w : World)
  : option cacheRecord :=
  match cache w !! key with
  | Some e =>
      if clock_reading env (clock w) <=? instant (timeout e) then Some e
      else None
  | None => None
  end.

(** The hostname a resolver answer stands for. *)
Definition resolved_name (addr : string) (answer : list string * option error)
  : string :=
  match snd answer with
  | None => hd addr (fst answer)
  | Some _ => addr
  end.

(** The [i]-th 48-byte slot of a payload, read as a flow record. *)
Definition record_at (payload : list byte) (i : nat) : binaryRecord :=
  fst (dec_binaryRecord
         (take binaryRecord_size (drop (i * binaryRecord_size) payload))).

(** The number of complete flow records in a payload. *)
Definition complete_records (payload : list byte) : nat :=
  (length payload / binaryRecord_size)%nat.

(** A datagram with its version field replaced. *)
Definition with_version (v : Z) (buf : list byte) : list byte :=
  enc_uint16 v ++ drop 2 buf.

(** The line protocol as the specification lays it out: a measurement, a
    comma-separated list of tags, a comma-separated list of fields and a
    timestamp, the three parts separated by one space. *)
Definition key_value (kv : string * string) : string :=
  fst kv +:+ "=" +:+ snd kv.

Definition line_protocol (measurement : string) (tags fields : list (string * string))
                         (timestamp : string) : string :=
  measurement +:+ "," +:+ String.concat "," (map key_value tags) +:+ " " +:+
  String.concat "," (map key_value fields) +:+ " " +:+ timestamp.

(** What [lookUpWithCache] leaves behind after a resolution, when the clock
    is read for the [c]-th time at the write. *)
Definition refreshed (env : Env) (ipAddr : string) (c : nat) (w : World)
  : outcome string :=
  let answer := resolver env (length (lookups w)) ipAddr in
  match answer with
  | ([], None) => Panic index_panic
  | _ =>
      Ok (resolved_name ipAddr answer)
         (mkWorld
            (<[ipAddr := mkCacheRecord
                           (resolved_name ipAddr answer)
                           (mkTime (Local_next_day env (clock_reading env c))
                                   Local)]> (cache w))
            (S c) (lookups w ++ [ipAddr]) (logs w) (outputChannel w))
  end.

Definition tick (w : World) : World :=
  mkWorld (cache w) (S (clock w)) (lookups w) (logs w) (outputChannel w).

(** The number formed by bits [hi..lo] of [z]. *)
Definition bits (z : Z) (hi lo : Z) : Z := (z / 2 ^ lo) mod 2 ^ (hi - lo + 1).

(** The decoded record of a header and a flow record, once the two
    hostnames are known. *)
Definition enrich (env : Env) (h : header) (r : binaryRecord) (a : UDPAddr)
                  (srcHostName dstHostName : string) : decodedRecord :=
  mkDecodedRecord
    (set_SamplingInterval (Z.land 16383 (SamplingInterval h)) h)
    r
    (IP_String env (UDPAddr_IP a))
    (uint8 (Z.land 3 (Z.shiftr (SamplingInterval h) 14)))
    (IP_String env (intToIPv4Addr (Ipv4SrcAddrInt r)))
    (IP_String env (intToIPv4Addr (Ipv4DstAddrInt r)))
    (IP_String env (intToIPv4Addr (Ipv4NextHopInt r)))
    srcHostName dstHostName
    (uint16 (uint32 (LastInt r - FirstInt r) / 1000)).


(** The error of reading a record from a buffer that holds no complete one
    any more: nothing left, or a piece of a record. *)
Definition read_error (buf : list byte) : error :=
  if (length buf mod binaryRecord_size =? 0)%nat then EOF else ErrUnexpectedEOF.

(** The world in which the records sent after the first [k] carry version
    [v] in their header. *)
Definition retag (v : Z) (k : nat) (w : World) : World :=
  mkWorld (cache w) (clock w) (lookups w) (logs w)
          (take k (outputChannel w)
           ++ map (with_header (set_Version v)) (drop k (outputChannel w))).

Definition outcome_world {A} (f : World -> World) (o : outcome A) : outcome A :=
  match o with
  | Ok a w => Ok a (f w)
  | Panic msg => Panic msg
  end.


(** Every field of a decoded record holds a value of its declared width. *)
Definition wf_decodedRecord (d : decodedRecord) : Prop :=
  wf_header (embedded_header d) /\ wf_binaryRecord (embedded_binaryRecord d) /\
  is_uint8 (SamplingAlgorithm d) /\ is_uint16 (Duration d).

(** The line [handlePacket] logs when the header cannot be read. *)
Definition header_error (buf : list byte) : error :=
  match buf with
  | [] => EOF
  | _ :: _ => ErrUnexpectedEOF
  end.


(** A record block with its three reserved bytes (offsets 36, 46 and 47)
    set to zero. *)
Definition clear_reserved (block : list byte) : list byte :=
  <[36%nat := Byte.x00]> (<[46%nat := Byte.x00]> (<[47%nat := Byte.x00]> block)).


(** No key of the cache of [w] is missing from the cache of [w']. *)
Definition cache_grows (w w' : World) : Prop :=
  forall key : string, is_Some (cache w !! key) -> is_Some (cache w' !! key).

(** The two addresses of a decoded record that [decodeRecord] looks up. *)
Definition looked_up (d : decodedRecord) : list string :=
  [Ipv4SrcAddr d; Ipv4DstAddr d].


(** No character of the string is a dot. *)
Fixpoint no_dot (s : string) : Prop :=
  match s with
  | EmptyString => True
  | String c s' => c <> "."%char /\ no_dot s'
  end.


(** ** Goroutines

    [main] starts one goroutine per datagram ([go handlePacket(...)]); they
    share the cache, the clock, the resolver, the log and the channel. The
    embedding below cuts [handlePacket] at the points where it touches that
    shared state: each step is one such access together with the local
    computation that follows it. The mutex makes the load and the store of
    [lookUpWithCache] one step each; the expiry test and the resolution
    happen outside it. A schedule decides which goroutine moves next. *)

(** [make(chan decodedRecord, 100)] *)
Definition channel_capacity : nat := 100.

(** Where a call of [lookUpWithCache] stands. *)
Inductive lookup_pc : Type :=
  | LLoad                       (* before [hostnameFromCache := cache[ipAddr]] *)
  | LCheck (e : cacheRecord)    (* before [time.Now().After(e.timeout)] *)
  | LResolve                    (* before [net.LookupAddr(ipAddr)] *)
  | LStore (hostname : string). (* before [cache[ipAddr] = ...] *)

Inductive lookup_next : Type :=
  | Going (pc : lookup_pc)
  | Returned (hostname : string).

Local Open Scope go_scope.

Definition lookup_step (env : Env) (ipAddr : string) (pc : lookup_pc)
  : M lookup_next :=
  match pc with
  | LLoad =>
      let* hostnameFromCache := cache_load ipAddr in
      ret (if bool_decide (hostnameFromCache = cacheRecord_zero)
           then Going LResolve
           else Going (LCheck hostnameFromCache))
  | LCheck e =>
      let* now := time_Now env in
      ret (if Time_After now (timeout e) then Going LResolve
           else Returned (Hostname e))
  | LResolve =>
      let* answer := net_LookupAddr env ipAddr in
      match snd answer with
      | None => let* hostname := index0 (fst answer) in
                ret (Going (LStore hostname))
      | Some _ => ret (Going (LStore ipAddr))
      end
  | LStore hostname =>
      let* now := time_Now env in
      cache_store ipAddr (mkCacheRecord hostname (Time_AddDate_0_0_1 env now)) ;;
      ret (Returned hostname)
  end.

Local Close Scope go_scope.

(** Where a goroutine running [handlePacket] stands. *)
Inductive goroutine : Type :=
  | AtHeader (buf : list byte) (remoteAddr : UDPAddr)
  | AtLoop (n : nat) (h : header) (buf : list byte) (remoteAddr : UDPAddr)
  | AtSrc (pc : lookup_pc) (n : nat) (h : header) (record : binaryRecord)
          (buf : list byte) (remoteAddr : UDPAddr)
  | AtDst (pc : lookup_pc) (srcHostName : string) (n : nat) (h : header)
          (record : binaryRecord) (buf : list byte) (remoteAddr : UDPAddr)
  | AtSend (d : decodedRecord) (n : nat) (h : header) (buf : list byte)
           (remoteAddr : UDPAddr)
  | Finished
  | Crashed (msg : string).

(** The record a goroutine puts on the channel with its next step, if
    any: a send on a full channel waits. *)
Definition sends (g : goroutine) (w : World) : option decodedRecord :=
  match g with
  | AtSend d _ _ _ _ =>
      if (length (outputChannel w) <? channel_capacity)%nat then Some d
      else None
  | _ => None
  end.

(** One step of a goroutine. A panic leaves the goroutine crashed (and the
    state as it was before the step: the process is gone). *)
Definition goroutine_step (env : Env) (g : goroutine) (w : World)
  : goroutine * World :=
  match g with
  | AtHeader buf a =>
      match Read_header buf with
      | (inr err, _) =>
          (Finished,
           mkWorld (cache w) (clock w) (lookups w)
                   (logs w ++ ["Error: " +:+ Error err]) (outputChannel w))
      | (inl h, buf') => (AtLoop (Z.to_nat (FlowRecords h)) h buf' a, w)
      end
  | AtLoop O _ _ _ => (Finished, w)
  | AtLoop (S n) h buf a =>
      match Read_binaryRecord buf with
      | (inr err, _) =>
          (Finished,
           mkWorld (cache w) (clock w) (lookups w)
                   (logs w ++ ["binary.Read failed: " +:+ Error err])
                   (outputChannel w))
      | (inl record, buf') => (AtSrc LLoad n h record buf' a, w)
      end
  | AtSrc pc n h record buf a =>
      match lookup_step env
              (IP_String env (intToIPv4Addr (Ipv4SrcAddrInt record))) pc w with
      | Ok (Going pc') w' => (AtSrc pc' n h record buf a, w')
      | Ok (Returned s) w' => (AtDst LLoad s n h record buf a, w')
      | Panic msg => (Crashed msg, w)
      end
  | AtDst pc s n h record buf a =>
      match lookup_step env
              (IP_String env (intToIPv4Addr (Ipv4DstAddrInt record))) pc w with
      | Ok (Going pc') w' => (AtDst pc' s n h record buf a, w')
      | Ok (Returned t) w' => (AtSend (enrich env h record a s t) n h buf a, w')
      | Panic msg => (Crashed msg, w)
      end
  | AtSend d n h buf a =>
      if (length (outputChannel w) <? channel_capacity)%nat
      then (AtLoop n h buf a,
            mkWorld (cache w) (clock w) (lookups w) (logs w)
                    (outputChannel w ++ [d]))
      else (g, w)
  | Finished => (Finished, w)
  | Crashed msg => (Crashed msg, w)
  end.

(** [k] steps of one goroutine on its own. *)
Fixpoint goroutine_run (env : Env) (k : nat) (g : goroutine) (w : World)
  : goroutine * World :=
  match k with
  | O => (g, w)
  | S k' =>
      let (g', w') := goroutine_step env g w in
      goroutine_run env k' g' w'
  end.

(** The process: its goroutines, the shared state, what the sink has taken
    from the channel, and (for the statements only) who sent what, in the
    order of the sends. *)
Record System : Type := mkSystem {
  goroutines : list goroutine;
  shared : World;
  received : list decodedRecord;
  sent_log : list (nat * decodedRecord)
}.

Inductive actor : Type :=
  | Handler (i : nat)   (* the [i]-th goroutine of [handlePacket] moves *)
  | SinkReceive.        (* the sink executes [record = <-outputChannel] *)

Definition is_crashed (g : goroutine) : bool :=
  match g with
  | Crashed _ => true
  | _ => false
  end.

(** One step of the process. A panic in any goroutine ends the process:
    nothing moves afterwards. A receive on an empty channel waits. *)
Definition system_step (env : Env) (sys : System) (who : actor) : System :=
  if existsb is_crashed (goroutines sys) then sys
  else
    match who with
    | Handler i =>
        match goroutines sys !! i with
        | None => sys
        | Some g =>
            let (g', w') := goroutine_step env g (shared sys) in
            mkSystem (<[i := g']> (goroutines sys)) w' (received sys)
                     (sent_log sys
                      ++ match sends g (shared sys) with
                         | Some d => [(i, d)]
                         | None => []
                         end)
        end
    | SinkReceive =>
        let w := shared sys in
        match outputChannel w with
        | [] => sys
        | d :: rest =>
            mkSystem (goroutines sys)
                     (mkWorld (cache w) (clock w) (lookups w) (logs w) rest)
                     (received sys ++ [d]) (sent_log sys)
        end
    end.

Definition run (env : Env) (sys : System) (schedule : list actor) : System :=
  fold_left (system_step env) schedule sys.

(** The process right after [main] has started a goroutine for each of the
    datagrams. *)
Definition spawn (inputs : list (list byte * UDPAddr)) (w : World) : System :=
  mkSystem (map (fun p => AtHeader (fst p) (snd p)) inputs) w [] [].



(** A goroutine inside a call of [lookUpWithCache] for [ipAddr]: [K pc] is
    its state at [pc], [R hostname] its state once the call has returned. *)
Definition in_lookup (env : Env) (ipAddr : string)
           (K : lookup_pc -> goroutine) (R : string -> goroutine) : Prop :=
  forall pc w,
    goroutine_step env (K pc) w
    = match lookup_step env ipAddr pc w with
      | Ok (Going pc') w' => (K pc', w')
      | Ok (Returned s) w' => (R s, w')
      | Panic msg => (Crashed msg, w)
      end.








(** ** Sample inputs *)

Definition sample_env : Env :=
  mkEnv (fun k => 1000 + Z.of_nat k)
        (fun _ addr =>
           if String.eqb addr "10.0.0.1" then (["gw.example."], None)
           else ([], Some (DNSError "no such host")))
        (fun _ => "?")
        (fun t => t + nanoseconds_per_day).


(** A resolver that reports success and hands back no name. *)
Definition empty_answer_env : Env :=
  mkEnv (fun k => 1000 + Z.of_nat k) (fun _ _ => ([], None)) (fun _ => "?")
        (fun t => t + nanoseconds_per_day).

(** Version 5, one record, packed sampling field 0xC064. *)
Definition sample_header : header :=
  mkHeader 5 1 1000 1700000000 5 42 0 0 49252.

(** Version 9 in the header, otherwise the same. *)
Definition sample_header_v9 : header :=
  mkHeader 9 1 1000 1700000000 5 42 0 0 49252.

(** The header of a datagram that announces two records. *)
Definition sample_header_two : header :=
  mkHeader 5 2 1000 1700000000 5 42 0 0 49252.

(** 10.0.0.1 -> 10.0.0.2, first = 0xFFFFFFF0, last = 0x00000010. *)
Definition sample_record : binaryRecord :=
  mkBinaryRecord 167772161 167772162 0 1 2 10 1000 4294967280 16 80 443
                 16 6 0 0 0 24 24.

(** A flow that lasts 65 536 000 ms. *)
Definition long_record : binaryRecord :=
  mkBinaryRecord 167772161 167772162 0 1 2 10 1000 0 65536000 80 443
                 16 6 0 0 0 24 24.

Definition sample_padding : padding := mkPadding Byte.xaa Byte.xbb Byte.xcc.

Definition sample_addr : UDPAddr :=
  mkUDPAddr (net_IPv4 Byte.xc0 Byte.xa8 Byte.x01 Byte.x01) 2055.

(** A cache whose entry for 10.0.0.1 expires at instant 1000, which is what
    the clock of [sample_env] reads next. *)
Definition boundary_world : World :=
  mkWorld {[ "10.0.0.1" := mkCacheRecord "cached.example." (mkTime 1000 Local) ]}
          0 [] [] [].

(** An entry that expired one nanosecond ago. *)
Definition stale_world : World :=
  mkWorld {[ "10.0.0.1" := mkCacheRecord "cached.example." (mkTime 999 Local) ]}
          0 [] [] [].

Definition sample_decoded : decodedRecord :=
  mkDecodedRecord
    (set_SamplingInterval 100 sample_header) sample_record
    "192.168.1.1" 3 "10.0.0.1" "10.0.0.2" "0.0.0.0" "gw.example." "10.0.0.2" 0.

(** One datagram with one record. *)
Definition sample_datagram : list byte :=
  encode_header sample_header
  ++ encode_records [(sample_padding, sample_record)].

(** A datagram that announces two records and carries one, followed by the
    first ten bytes of another. *)
Definition truncated_datagram : list byte :=
  encode_header sample_header_two
  ++ encode_binaryRecord sample_padding sample_record
  ++ take 10 (encode_binaryRecord sample_padding long_record).



Definition second_write_fails : Net :=
  mkNet (fun k _ => if (k =? 1)%nat then Some "write: connection refused"
                    else None).

(** A sink that has three records waiting. *)
Definition sample_sink : Sink :=
  mkSink (mkWorld ∅ 0 [] []
            [sample_decoded; with_header (set_Version 9) sample_decoded;
             with_header (set_FlowRecords 2) sample_decoded])
         [] 0.

(** Two datagrams from the same exporter, each with its own handler, and a
    schedule that lets the two handlers and the sink take turns. *)
Definition two_datagrams : list (list byte * UDPAddr) :=
  [(sample_datagram, sample_addr); (truncated_datagram, sample_addr)].

Definition taking_turns : list actor :=
  concat (replicate 12 [Handler 0; Handler 1; SinkReceive]).


(** * Properties *)

(** ** Bytes and big-endian fields *)

Ltac divlia := Z.to_euclidean_division_equations; lia.

Ltac pow2_consts :=
  change (2 ^ 8) with 256 in *; change (2 ^ 16) with 65536 in *;
  change (2 ^ 24) with 16777216 in *; change (2 ^ 32) with 4294967296 in *.

Lemma byte_val_range (b : byte) : 0 <= byte_val b < 256.
Proof.
  unfold byte_val. pose proof (Byte.to_N_bounded b). lia.
Qed.

Lemma byte_val_to_byte (z : Z) : byte_val (to_byte z) = z mod 256.
Proof.
  unfold to_byte, byte_val, uint8.
  change (2 ^ 8) with 256.
  pose proof (Z.mod_pos_bound z 256 ltac:(lia)) as Hr.
  destruct (Byte.of_N (Z.to_N (z mod 256))) as [b|] eqn:Hb.
  - apply Byte.to_of_N in Hb. rewrite Hb. lia.
  - apply Byte.of_N_None_iff in Hb. lia.
Qed.

Lemma lor_shiftl_add (a b n : Z) :
  0 <= n -> 0 <= a < 2 ^ n -> Z.lor a (Z.shiftl b n) = a + b * 2 ^ n.
Proof.
  intros Hn Ha.
  rewrite <- Z.shiftl_mul_pow2 by lia.
  pose proof (Z.add_lor_land a (Z.shiftl b n)) as Hsum.
  assert (Hland : Z.land a (Z.shiftl b n) = 0).
  { apply Z.bits_inj'. intros i Hi.
    rewrite Z.land_spec, Z.bits_0.
    destruct (Z.lt_ge_cases i n) as [Hlt|Hge].
    - rewrite Z.shiftl_spec_low by lia. apply andb_false_r.
    - destruct (Z.eq_dec a 0) as [->|Hne].
      + rewrite Z.bits_0. reflexivity.
      + rewrite (Z.bits_above_log2 a i); [reflexivity|lia|].
        apply Z.log2_lt_pow2; [lia|].
        apply Z.lt_le_trans with (2 ^ n); [lia|].
        apply Z.pow_le_mono_r; lia. }
  rewrite Hland in Hsum. lia.
Qed.



Lemma dec_enc_uint8 (z : Z) (rest : list byte) :
  dec_uint8 (enc_uint8 z ++ rest) = (uint8 z, rest).
Proof.
  unfold dec_uint8, enc_uint8, nth_byte; simpl.
  rewrite byte_val_to_byte. reflexivity.
Qed.

Lemma dec_enc_uint16 (z : Z) (rest : list byte) :
  dec_uint16 (enc_uint16 z ++ rest) = (uint16 z, rest).
Proof.
  unfold dec_uint16, enc_uint16, nth_byte, uint16; simpl.
  rewrite !byte_val_to_byte.
  rewrite lor_shiftl_add by (pow2_consts; divlia).
  rewrite !Z.shiftr_div_pow2 by lia.
  f_equal. pow2_consts. divlia.
Qed.

Lemma dec_enc_uint32 (z : Z) (rest : list byte) :
  dec_uint32 (enc_uint32 z ++ rest) = (uint32 z, rest).
Proof.
  unfold dec_uint32, enc_uint32, nth_byte, uint32; simpl.
  rewrite !byte_val_to_byte.
  rewrite !Z.shiftr_div_pow2 by lia.
  rewrite (lor_shiftl_add _ _ 8) by (pow2_consts; divlia).
  rewrite (lor_shiftl_add _ _ 16) by (pow2_consts; divlia).
  rewrite (lor_shiftl_add _ _ 24) by (pow2_consts; divlia).
  f_equal. pow2_consts. divlia.
Qed.
Lemma uint8_small z : is_uint8 z -> uint8 z = z.
Proof. unfold is_uint8, uint8. intros H. apply Z.mod_small. exact H. Qed.
Lemma uint16_small z : is_uint16 z -> uint16 z = z.
Proof. unfold is_uint16, uint16. intros H. apply Z.mod_small. exact H. Qed.
Lemma uint32_small z : is_uint32 z -> uint32 z = z.
Proof. unfold is_uint32, uint32. intros H. apply Z.mod_small. exact H. Qed.

Lemma length_encode_header (h : header) :
  length (encode_header h) = header_size.
Proof. reflexivity. Qed.

Lemma length_encode_binaryRecord (p : padding) (r : binaryRecord) :
  length (encode_binaryRecord p r) = binaryRecord_size.
Proof. reflexivity. Qed.

Lemma dec_encode_header (h : header) (rest : list byte) :
  wf_header h -> dec_header (encode_header h ++ rest) = (h, rest).
Proof.
  intros (Hv & Hn & Hu & Hs & Hns & Hq & Het & Hei & Hsi).
  unfold encode_header, dec_header, dec_bind, dec_ret.
  rewrite <- !app_assoc.
  rewrite !dec_enc_uint16, !dec_enc_uint32, !dec_enc_uint8, !dec_enc_uint16.
  rewrite !uint16_small, !uint32_small, !uint8_small by assumption.
  destruct h; reflexivity.
Qed.

Lemma dec_encode_binaryRecord (p : padding) (r : binaryRecord) (rest : list byte) :
  wf_binaryRecord r ->
  dec_binaryRecord (encode_binaryRecord p r ++ rest) = (r, rest).
Proof.
  intros (H1 & H2 & H3 & H4 & H5 & H6 & H7 & H8 & H9 & H10 & H11 & H12 & H13
          & H14 & H15 & H16 & H17 & H18).
  unfold encode_binaryRecord, dec_binaryRecord, dec_bind, dec_ret.
  rewrite <- !app_assoc.
  rewrite !dec_enc_uint32, !dec_enc_uint16, !dec_enc_uint32, !dec_enc_uint16.
  unfold dec_skip at 1. cbn [app skipn]. rewrite drop_0.
  rewrite !dec_enc_uint8, !dec_enc_uint16, !dec_enc_uint8.
  unfold dec_skip. cbn [app skipn]. rewrite drop_0.
  rewrite !uint16_small, !uint32_small, !uint8_small by assumption.
  destruct r; reflexivity.
Qed.

Lemma ReadFull_app (size : nat) (block rest : list byte) :
  length block = size -> (0 < size)%nat ->
  ReadFull size (block ++ rest) = (inl block, rest).
Proof.
  intros Hlen Hpos. unfold ReadFull.
  destruct (block ++ rest) as [|b bs] eqn:Heq.
  - apply (f_equal length) in Heq. rewrite length_app in Heq. simpl in Heq. lia.
  - rewrite <- Heq.
    assert (Hlt : (length (block ++ rest) <? size)%nat = false).
    { apply Nat.ltb_ge. rewrite length_app. lia. }
    rewrite Hlt, take_app_length', drop_app_length' by congruence.
    reflexivity.
Qed.

Lemma ReadFull_short (size : nat) (buf : list byte) :
  (length buf < size)%nat ->
  exists e, ReadFull size buf = (inr e, []).
Proof.
  intros Hlt. unfold ReadFull. destruct buf as [|b bs]; [eauto|].
  apply Nat.ltb_lt in Hlt. rewrite Hlt. eauto.
Qed.

Lemma ReadFull_enough (size : nat) (buf : list byte) :
  (0 < size <= length buf)%nat ->
  ReadFull size buf = (inl (take size buf), drop size buf).
Proof.
  intros Hle. unfold ReadFull. destruct buf as [|b bs]; [simpl in Hle; lia|].
  assert (Hlt : (length (b :: bs) <? size)%nat = false) by (apply Nat.ltb_ge; lia).
  rewrite Hlt. reflexivity.
Qed.

Lemma Read_header_encode (h : header) (rest : list byte) :
  wf_header h -> Read_header (encode_header h ++ rest) = (inl h, rest).
Proof.
  intros Hwf. unfold Read_header.
  rewrite ReadFull_app by (rewrite ?length_encode_header; unfold header_size; lia).
  rewrite <- (app_nil_r (encode_header h)), dec_encode_header by assumption.
  reflexivity.
Qed.

Lemma Read_binaryRecord_encode (p : padding) (r : binaryRecord) (rest : list byte) :
  wf_binaryRecord r ->
  Read_binaryRecord (encode_binaryRecord p r ++ rest) = (inl r, rest).
Proof.
  intros Hwf. unfold Read_binaryRecord.
  rewrite ReadFull_app
    by (rewrite ?length_encode_binaryRecord; unfold binaryRecord_size; lia).
  rewrite <- (app_nil_r (encode_binaryRecord p r)), dec_encode_binaryRecord
    by assumption.
  reflexivity.
Qed.

(** ** The DNS cache *)

Lemma lookUpWithCache_run (env : Env) (ipAddr : string) (w : World) :
  lookUpWithCache env ipAddr w =
  match cache w !! ipAddr with
  | None => refreshed env ipAddr (clock w) w
  | Some e =>
      if bool_decide (e = cacheRecord_zero) then refreshed env ipAddr (clock w) w
      else if instant (timeout e) <? clock_reading env (clock w)
           then refreshed env ipAddr (S (clock w)) w
           else Ok (Hostname e) (tick w)
  end.
Proof.
  unfold lookUpWithCache, refreshed, tick, bind, cache_load, net_LookupAddr,
    time_Now, cache_store, ret, resolved_name, Time_After, Time_AddDate_0_0_1.
  cbn [lookups clock cache logs outputChannel instant loc].
  destruct (cache w !! ipAddr) as [e|]; cbn [from_option id].
  - destruct (bool_decide (e = cacheRecord_zero)).
    + destruct (resolver env (length (lookups w)) ipAddr) as [[|n names] [err|]];
        reflexivity.
    + cbn [lookups clock cache logs outputChannel instant loc].
      destruct (instant (timeout e) <? clock_reading env (clock w)); [|reflexivity].
      cbn [lookups clock cache logs outputChannel instant loc].
      destruct (resolver env (length (lookups w)) ipAddr) as [[|n names] [err|]];
        reflexivity.
  - rewrite bool_decide_eq_true_2 by reflexivity.
    destruct (resolver env (length (lookups w)) ipAddr) as [[|n names] [err|]];
      reflexivity.
Qed.

Lemma refreshed_ok (env : Env) (ipAddr : string) (c : nat) (w : World) :
  resolver env (length (lookups w)) ipAddr <> ([], None) ->
  refreshed env ipAddr c w =
  Ok (resolved_name ipAddr (resolver env (length (lookups w)) ipAddr))
     (mkWorld
        (<[ipAddr := mkCacheRecord
                       (resolved_name ipAddr
                          (resolver env (length (lookups w)) ipAddr))
                       (mkTime (Local_next_day env (clock_reading env c))
                               Local)]> (cache w))
        (S c) (lookups w ++ [ipAddr]) (logs w) (outputChannel w)).
Proof.
  intros Hne. unfold refreshed.
  destruct (resolver env (length (lookups w)) ipAddr) as [[|n names] [err|]];
    try reflexivity.
  contradiction.
Qed.

Lemma refreshed_panic (env : Env) (ipAddr : string) (c : nat) (w : World) :
  resolver env (length (lookups w)) ipAddr = ([], None) ->
  refreshed env ipAddr c w = Panic index_panic.
Proof. intros Heq. unfold refreshed. rewrite Heq. reflexivity. Qed.

Lemma resolver_ok_answer (env : Env) (k : nat) (addr : string) :
  resolver_ok env -> resolver env k addr <> ([], None).
Proof. intros Hok Heq. exact (Hok k addr [] Heq eq_refl). Qed.

(** A miss or an expired entry sends [lookUpWithCache] to the resolver. *)
Lemma lookUpWithCache_slow (env : Env) (ipAddr : string) (w : World) :
  cache_hit env ipAddr w = None ->
  exists c, (clock w <= c <= S (clock w))%nat /\
            lookUpWithCache env ipAddr w = refreshed env ipAddr c w.
Proof.
  intros Hhit. rewrite lookUpWithCache_run. unfold cache_hit in Hhit.
  destruct (cache w !! ipAddr) as [e|].
  - destruct (bool_decide (e = cacheRecord_zero)).
    + exists (clock w). split; [lia|reflexivity].
    + destruct (clock_reading env (clock w) <=? instant (timeout e)) eqn:Hle;
        [discriminate|].
      apply Z.leb_gt in Hle. apply Z.ltb_lt in Hle. rewrite Hle.
      exists (S (clock w)). split; [lia|reflexivity].
  - exists (clock w). split; [lia|reflexivity].
Qed.


Lemma lookUpWithCache_total (env : Env) (ipAddr : string) (w : World) :
  resolver_ok env ->
  exists hostname w',
    lookUpWithCache env ipAddr w = Ok hostname w' /\
    logs w' = logs w /\ outputChannel w' = outputChannel w.
Proof.
  intros Hok. rewrite lookUpWithCache_run.
  pose proof (resolver_ok_answer env (length (lookups w)) ipAddr Hok) as Hne.
  destruct (cache w !! ipAddr) as [e|].
  - destruct (bool_decide (e = cacheRecord_zero)).
    + rewrite refreshed_ok by assumption. eauto.
    + destruct (instant (timeout e) <? clock_reading env (clock w)).
      * rewrite refreshed_ok by assumption. eauto.
      * unfold tick. eauto.
  - rewrite refreshed_ok by assumption. eauto.
Qed.

(** Entries are only ever stored with the location of [time.Now]. *)
Lemma lookUpWithCache_cache_wf (env : Env) (ipAddr : string) (w w' : World)
      (hostname : string) :
  cache_wf w -> lookUpWithCache env ipAddr w = Ok hostname w' -> cache_wf w'.
Proof.
  intros Hwf Hrun. rewrite lookUpWithCache_run in Hrun.
  assert (Href : forall c, refreshed env ipAddr c w = Ok hostname w' -> cache_wf w').
  { intros c Hc. unfold refreshed in Hc.
    assert (Hstore : forall hn,
      cache_wf (mkWorld
        (<[ipAddr := mkCacheRecord hn
             (mkTime (Local_next_day env (clock_reading env c)) Local)]> (cache w))
        (S c) (lookups w ++ [ipAddr]) (logs w) (outputChannel w))).
    { intros hn key e He. cbn [cache] in He.
      destruct (decide (ipAddr = key)) as [->|Hne].
      - rewrite lookup_insert_eq in He. injection He as <-. discriminate.
      - rewrite lookup_insert_ne in He by assumption. eapply Hwf; eassumption. }
    destruct (resolver env (length (lookups w)) ipAddr) as [[|n names] [err|]];
      try discriminate; injection Hc as <- <-; apply Hstore. }
  destruct (cache w !! ipAddr) as [e|]; [|eapply Href; eassumption].
  destruct (bool_decide (e = cacheRecord_zero)); [eapply Href; eassumption|].
  destruct (instant (timeout e) <? clock_reading env (clock w));
    [eapply Href; eassumption|].
  injection Hrun as <- <-. exact Hwf.
Qed.

Lemma World_init_cache_wf : cache_wf World_init.
Proof. intros key e He. cbn [cache World_init] in He. rewrite lookup_empty in He. discriminate. Qed.

Lemma sample_env_resolver_ok : resolver_ok sample_env.
Proof.
  intros k addr names. cbn [resolver sample_env].
  destruct (String.eqb addr "10.0.0.1"); intros Heq; injection Heq as <-;
    discriminate.
Defined.


Lemma boundary_world_cache_wf : cache_wf boundary_world.
Proof.
  intros key e He. cbn [cache boundary_world] in He.
  apply lookup_singleton_Some in He as [_ <-]. discriminate.
Defined.

Lemma stale_world_cache_wf : cache_wf stale_world.
Proof.
  intros key e He. cbn [cache stale_world] in He.
  apply lookup_singleton_Some in He as [_ <-]. discriminate.
Defined.






(** C10. On the slow path the first name of the resolver's answer is taken
    with no guard: an answer without an error and without a name makes
    [lookUpWithCache] panic on the index. The call returns for every address
    in every state exactly when the resolver never gives such an answer. *)
Theorem lookUpWithCache_index_unguarded (env : Env) :
  (forall (ipAddr : string) (w : World),
     cache_hit env ipAddr w = None ->
     resolver env (length (lookups w)) ipAddr = ([], None) ->
     lookUpWithCache env ipAddr w
     = Panic "runtime error: index out of range [0] with length 0") /\
  (resolver_ok env <->
   forall (ipAddr : string) (w : World),
     exists hostname w', lookUpWithCache env ipAddr w = Ok hostname w').
Proof.
  assert (Hpanic : forall (ipAddr : string) (w : World),
             cache_hit env ipAddr w = None ->
             resolver env (length (lookups w)) ipAddr = ([], None) ->
             lookUpWithCache env ipAddr w = Panic index_panic).
  { intros ipAddr w Hhit Hanswer.
    destruct (lookUpWithCache_slow env ipAddr w Hhit) as (c & _ & Hrun).
    rewrite Hrun. apply refreshed_panic. exact Hanswer. }
  split; [exact Hpanic|]. split.
  - intros Hok ipAddr w.
    destruct (lookUpWithCache_total env ipAddr w Hok) as (hn & w' & Hrun & _).
    eauto.
  - intros Htotal k addr names Hanswer ->.
    destruct (Htotal addr (mkWorld ∅ 0 (replicate k addr) [] []))
      as (hn & w' & Hrun).
    rewrite Hpanic in Hrun; [discriminate|reflexivity|].
    cbn [lookups]. rewrite length_replicate. exact Hanswer.
Qed.

Lemma lookUpWithCache_index_unguarded_witness :
  (exists hostname w',
     lookUpWithCache sample_env "10.0.0.1" World_init = Ok hostname w') /\
  lookUpWithCache empty_answer_env "10.0.0.1" World_init
  = Panic "runtime error: index out of range [0] with length 0".
Proof.
  split.
  - exact (proj1 (proj2 (lookUpWithCache_index_unguarded sample_env))
             sample_env_resolver_ok "10.0.0.1" World_init).
  - exact (proj1 (lookUpWithCache_index_unguarded empty_answer_env)
             "10.0.0.1" World_init eq_refl eq_refl).
Defined.

(** ** Enrichment of one record *)

Lemma decodeRecord_run (env : Env) (h : header) (r : binaryRecord)
      (a : UDPAddr) (w : World) :
  decodeRecord env h r a w =
  match lookUpWithCache env (IP_String env (intToIPv4Addr (Ipv4SrcAddrInt r))) w with
  | Panic msg => Panic msg
  | Ok s w1 =>
      match lookUpWithCache env
              (IP_String env (intToIPv4Addr (Ipv4DstAddrInt r))) w1 with
      | Panic msg => Panic msg
      | Ok t w2 => Ok (enrich env h r a s t) w2
      end
  end.
Proof.
  unfold decodeRecord, bind, ret.
  cbn [Ipv4SrcAddr Ipv4DstAddr set_SrcHostName].
  destruct (lookUpWithCache env _ w) as [s w1|msg]; [|reflexivity].
  destruct (lookUpWithCache env _ w1) as [t w2|msg]; reflexivity.
Qed.

Lemma decodeRecord_total (env : Env) (h : header) (r : binaryRecord)
      (a : UDPAddr) (w : World) :
  resolver_ok env ->
  exists s t w',
    decodeRecord env h r a w = Ok (enrich env h r a s t) w' /\
    logs w' = logs w /\ outputChannel w' = outputChannel w.
Proof.
  intros Hok. rewrite decodeRecord_run.
  destruct (lookUpWithCache_total env
              (IP_String env (intToIPv4Addr (Ipv4SrcAddrInt r))) w Hok)
    as (s & w1 & -> & Hl1 & Hc1).
  destruct (lookUpWithCache_total env
              (IP_String env (intToIPv4Addr (Ipv4DstAddrInt r))) w1 Hok)
    as (t & w2 & -> & Hl2 & Hc2).
  exists s, t, w2. repeat split; congruence.
Qed.

Lemma bits_testbit (z hi lo i : Z) :
  0 <= lo -> 0 <= i <= hi - lo ->
  Z.testbit (bits z hi lo) i = Z.testbit z (lo + i).
Proof.
  intros Hlo Hi. unfold bits.
  rewrite Z.mod_pow2_bits_low by lia.
  rewrite Z.div_pow2_bits by lia.
  f_equal. lia.
Qed.

Lemma bits_range (z hi lo : Z) :
  lo <= hi + 1 -> 0 <= bits z hi lo < 2 ^ (hi - lo + 1).
Proof.
  intros H. unfold bits. apply Z.mod_pos_bound. apply Z.pow_pos_nonneg; lia.
Qed.

Lemma byte_val_shiftr (z n : Z) :
  0 <= n -> byte_val (to_byte (Z.shiftr z n)) = bits z (n + 7) n.
Proof.
  intros Hn. rewrite byte_val_to_byte, Z.shiftr_div_pow2 by lia.
  unfold bits. replace (n + 7 - n + 1) with 8 by lia. reflexivity.
Qed.

Lemma IP_String_IPv4 (env : Env) (a b c d : byte) :
  IP_String env (net_IPv4 a b c d)
  = dotted (byte_val a) (byte_val b) (byte_val c) (byte_val d).
Proof. reflexivity. Qed.

(** C6. The text of a 32-bit address is the dotted decimal of its four
    octets, bits 31..24 first, then bits 23..16, bits 15..8 and bits 7..0;
    0x0A000001 reads 10.0.0.1. *)
Theorem intToIPv4Addr_dotted (env : Env) (intAddr : Z) :
  IP_String env (intToIPv4Addr intAddr)
  = itoa (bits intAddr 31 24) +:+ "." +:+ itoa (bits intAddr 23 16) +:+ "."
    +:+ itoa (bits intAddr 15 8) +:+ "." +:+ itoa (bits intAddr 7 0)
  /\ IP_String env (intToIPv4Addr 167772161) = "10.0.0.1".
Proof.
  split; [|reflexivity].
  unfold intToIPv4Addr. rewrite IP_String_IPv4.
  rewrite !byte_val_shiftr by lia.
  rewrite <- (Z.shiftr_0_r intAddr) at 4.
  rewrite byte_val_shiftr by lia.
  reflexivity.
Qed.

(** C1, as stated, fails for a long flow: with first = 0 and last =
    65 536 000 the quotient is 65 536, and the decoded duration is 0. *)
Lemma decodeRecord_duration_long_flow :
  exists d w',
    decodeRecord sample_env sample_header long_record sample_addr World_init
    = Ok d w' /\
    ((LastInt long_record - FirstInt long_record) mod 2 ^ 32) / 1000 = 65536 /\
    Duration d = 0 /\
    Duration d <> ((LastInt long_record - FirstInt long_record) mod 2 ^ 32) / 1000.
Proof.
  destruct (decodeRecord_total sample_env sample_header long_record sample_addr
              World_init sample_env_resolver_ok) as (s & t & w' & Hrun & _).
  eexists _, _. split; [exact Hrun|]. split; [reflexivity|].
  split; [reflexivity|]. vm_compute. discriminate.
Qed.

(** C1 (amended). For every raw flow record whose quotient
    ((last - first) mod 2^32) / 1000 is at most 65535, the derived duration
    equals that quotient, the subtraction being unsigned 32-bit and the
    division truncating; for first = 0xFFFFFFF0 and last = 0x00000010 the
    duration is 0. *)
Theorem decodeRecord_duration (env : Env) (h : header) (r : binaryRecord)
        (a : UDPAddr) (w : World) :
  resolver_ok env ->
  ((LastInt r - FirstInt r) mod 2 ^ 32) / 1000 <= 65535 ->
  exists d w',
    decodeRecord env h r a w = Ok d w' /\
    Duration d = ((LastInt r - FirstInt r) mod 2 ^ 32) / 1000 /\
    Duration d = Z.quot ((LastInt r - FirstInt r) mod 2 ^ 32) 1000 /\
    (FirstInt r = 4294967280 -> LastInt r = 16 -> Duration d = 0).
Proof.
  intros Hok Hq.
  destruct (decodeRecord_total env h r a w Hok) as (s & t & w' & Hrun & _).
  exists (enrich env h r a s t), w'. split; [exact Hrun|].
  cbn [Duration enrich]. unfold uint16, uint32.
  pose proof (Z.mod_pos_bound (LastInt r - FirstInt r) (2 ^ 32) ltac:(lia)) as Hm.
  assert (Hd : 0 <= ((LastInt r - FirstInt r) mod 2 ^ 32) / 1000)
    by (apply Z.div_pos; lia).
  rewrite (Z.mod_small _ (2 ^ 16)) by lia.
  split; [reflexivity|]. split.
  - symmetry. apply Z.quot_div_nonneg; lia.
  - intros -> ->. reflexivity.
Qed.

Lemma decodeRecord_duration_witness :
  resolver_ok sample_env /\
  ((LastInt sample_record - FirstInt sample_record) mod 2 ^ 32) / 1000 <= 65535 /\
  exists d w',
    decodeRecord sample_env sample_header sample_record sample_addr World_init
    = Ok d w' /\
    Duration d = 0.
Proof.
  assert (Hq : ((LastInt sample_record - FirstInt sample_record) mod 2 ^ 32)
               / 1000 <= 65535) by (vm_compute; discriminate).
  split; [exact sample_env_resolver_ok|]. split; [exact Hq|].
  destruct (decodeRecord_duration sample_env sample_header sample_record
              sample_addr World_init sample_env_resolver_ok Hq)
    as (d & w' & Hrun & _ & _ & Hex).
  exists d, w'. split; [exact Hrun|]. apply Hex; reflexivity.
Defined.

(** C9. The stored duration is a 16-bit value: it is the quotient
    ((last - first) mod 2^32) / 1000 reduced modulo 2^16, so a quotient above
    65535 does not survive the conversion. *)
Theorem decodeRecord_duration_uint16 (env : Env) (h : header)
        (r : binaryRecord) (a : UDPAddr) (w : World) :
  resolver_ok env ->
  exists d w',
    decodeRecord env h r a w = Ok d w' /\
    Duration d = (((LastInt r - FirstInt r) mod 2 ^ 32) / 1000) mod 2 ^ 16 /\
    0 <= Duration d < 2 ^ 16 /\
    (65535 < ((LastInt r - FirstInt r) mod 2 ^ 32) / 1000 ->
     Duration d < ((LastInt r - FirstInt r) mod 2 ^ 32) / 1000).
Proof.
  intros Hok.
  destruct (decodeRecord_total env h r a w Hok) as (s & t & w' & Hrun & _).
  exists (enrich env h r a s t), w'. split; [exact Hrun|].
  cbn [Duration enrich]. unfold uint16, uint32.
  pose proof (Z.mod_pos_bound (((LastInt r - FirstInt r) mod 2 ^ 32) / 1000)
                (2 ^ 16) ltac:(lia)) as Hm.
  split; [reflexivity|]. split; [exact Hm|].
  intros Hbig. pow2_consts. lia.
Qed.

Lemma decodeRecord_duration_uint16_witness :
  resolver_ok sample_env /\
  exists d w',
    decodeRecord sample_env sample_header long_record sample_addr World_init
    = Ok d w' /\
    Duration d = 0 /\
    Duration d < ((LastInt long_record - FirstInt long_record) mod 2 ^ 32) / 1000.
Proof.
  split; [exact sample_env_resolver_ok|].
  destruct (decodeRecord_duration_uint16 sample_env sample_header long_record
              sample_addr World_init sample_env_resolver_ok)
    as (d & w' & Hrun & Hd & _ & Hwrap).
  exists d, w'. split; [exact Hrun|]. split.
  - rewrite Hd. reflexivity.
  - apply Hwrap. reflexivity.
Defined.

Lemma land_3_shiftr_14 (raw : Z) :
  uint8 (Z.land 3 (Z.shiftr raw 14)) = Z.land (Z.shiftr raw 14) 3.
Proof.
  rewrite Z.land_comm. unfold uint8.
  change 3 with (Z.ones 2). rewrite Z.land_ones by lia.
  apply Z.mod_small.
  pose proof (Z.mod_pos_bound (Z.shiftr raw 14) (2 ^ 2) ltac:(lia)).
  change (2 ^ 2) with 4 in *. pow2_consts. lia.
Qed.

(** C2. Decoding the packed 16-bit sampling field sets the sampling
    algorithm to (raw >> 14) & 0x3, that is bits 15..14, and overwrites the
    sampling-interval field with raw & 0x3FFF, that is bits 13..0; the other
    fields of the header are kept, so the decoded record holds the 14-bit
    interval where the packed field was. 0xC064 gives algorithm 3 and
    interval 100. *)
Theorem decodeRecord_sampling (env : Env) (h : header) (r : binaryRecord)
        (a : UDPAddr) (w : World) :
  resolver_ok env ->
  exists d w',
    decodeRecord env h r a w = Ok d w' /\
    SamplingAlgorithm d = Z.land (Z.shiftr (SamplingInterval h) 14) 3 /\
    SamplingInterval (embedded_header d) = Z.land (SamplingInterval h) 16383 /\
    embedded_header d
    = set_SamplingInterval (Z.land (SamplingInterval h) 16383) h /\
    0 <= SamplingInterval (embedded_header d) < 2 ^ 14 /\
    (SamplingInterval h = 49252 ->
     SamplingAlgorithm d = 3 /\ SamplingInterval (embedded_header d) = 100).
Proof.
  intros Hok.
  destruct (decodeRecord_total env h r a w Hok) as (s & t & w' & Hrun & _).
  exists (enrich env h r a s t), w'. split; [exact Hrun|].
  cbn [SamplingAlgorithm embedded_header enrich SamplingInterval
       set_SamplingInterval].
  rewrite land_3_shiftr_14, (Z.land_comm 16383).
  split; [reflexivity|]. split; [reflexivity|]. split; [reflexivity|]. split.
  - change 16383 with (Z.ones 14). rewrite Z.land_ones by lia.
    apply Z.mod_pos_bound. lia.
  - intros ->. split; reflexivity.
Qed.

Lemma decodeRecord_sampling_witness :
  resolver_ok sample_env /\
  exists d w',
    decodeRecord sample_env sample_header sample_record sample_addr World_init
    = Ok d w' /\
    SamplingAlgorithm d = 3 /\ SamplingInterval (embedded_header d) = 100.
Proof.
  split; [exact sample_env_resolver_ok|].
  destruct (decodeRecord_sampling sample_env sample_header sample_record
              sample_addr World_init sample_env_resolver_ok)
    as (d & w' & Hrun & _ & _ & _ & _ & Hex).
  exists d, w'. split; [exact Hrun|]. apply Hex. reflexivity.
Defined.

(** ** The line protocol *)

Lemma timestamp_uint64 (sec nsec : Z) :
  uint64 (uint64 (uint64 sec * uint64 1000000000) + uint64 nsec)
  = uint64 (sec * 1000000000 + nsec).
Proof.
  unfold uint64. symmetry.
  rewrite Z.add_mod by lia. rewrite (Z.mul_mod sec) by lia. reflexivity.
Qed.

Lemma timestamp_no_wrap (sec nsec : Z) :
  is_uint32 sec -> is_uint32 nsec ->
  uint64 (sec * 1000000000 + nsec) = sec * 1000000000 + nsec.
Proof.
  unfold is_uint32, uint64. intros Hs Hn. apply Z.mod_small.
  pow2_consts. change (2 ^ 64) with 18446744073709551616. lia.
Qed.

Lemma string_app_assoc (s1 s2 s3 : string) :
  (s1 +:+ s2) +:+ s3 = s1 +:+ s2 +:+ s3.
Proof.
  induction s1 as [|c s1 IH]; [reflexivity|].
  change (String c ((s1 +:+ s2) +:+ s3) = String c (s1 +:+ s2 +:+ s3)).
  f_equal. exact IH.
Qed.

Lemma string_app_nil_r (s : string) : s +:+ "" = s.
Proof.
  induction s as [|c s IH]; [reflexivity|].
  change (String c (s +:+ "") = String c s). f_equal. exact IH.
Qed.

(** C7. [formatLineProtocol] renders a decoded record as one line-protocol
    text: the measurement netflow, the ten tags host, srcAddr, dstAddr,
    srcHostName, dstHostName, protocol, srcPort, dstPort, input and output,
    the three fields inBytes, inPackets and duration, each taken from the
    record, and the timestamp unixSec * 1 000 000 000 + unixNsec computed in
    unsigned 64-bit arithmetic. *)
Theorem formatLineProtocol_line (record : decodedRecord) :
  formatLineProtocol record
  = line_protocol "netflow"
      [ ("host", Host record);
        ("srcAddr", Ipv4SrcAddr record);
        ("dstAddr", Ipv4DstAddr record);
        ("srcHostName", SrcHostName record);
        ("dstHostName", DstHostName record);
        ("protocol", itoa (Protocol (embedded_binaryRecord record)));
        ("srcPort", itoa (L4SrcPort (embedded_binaryRecord record)));
        ("dstPort", itoa (L4DstPort (embedded_binaryRecord record)));
        ("input", itoa (InputSnmp (embedded_binaryRecord record)));
        ("output", itoa (OutputSnmp (embedded_binaryRecord record))) ]
      [ ("inBytes", itoa (InBytes (embedded_binaryRecord record)));
        ("inPackets", itoa (InPkts (embedded_binaryRecord record)));
        ("duration", itoa (Duration record)) ]
      (itoa ((UnixSec (embedded_header record) * 1000000000
              + UnixNsec (embedded_header record)) mod 2 ^ 64)).
Proof.
  unfold formatLineProtocol. rewrite timestamp_uint64. unfold uint64.
  unfold line_protocol, key_value.
  cbn [map String.concat fst snd].
  rewrite !string_app_assoc.
  cbn [Sprintf]. rewrite string_app_nil_r.
  lazy [String.append]. reflexivity.
Qed.

Example formatLineProtocol_sample :
  formatLineProtocol sample_decoded
  = "netflow,host=192.168.1.1,srcAddr=10.0.0.1,dstAddr=10.0.0.2,srcHostName=gw.example.,dstHostName=10.0.0.2,protocol=6,srcPort=80,dstPort=443,input=1,output=2 inBytes=1000,inPackets=10,duration=0 1700000000000000005".
Proof. reflexivity. Qed.

(** ** Datagrams *)

(** One iteration of the loop on a buffer that still holds a record. *)
Lemma handlePacket_loop_step (env : Env) (n : nat) (h : header)
      (record : binaryRecord) (buf rest : list byte) (a : UDPAddr) (w : World) :
  Read_binaryRecord buf = (inl record, rest) ->
  handlePacket_loop env (S n) h buf a w =
  match decodeRecord env h record a w with
  | Panic msg => Panic msg
  | Ok d w1 =>
      handlePacket_loop env n h rest a
        (mkWorld (cache w1) (clock w1) (lookups w1) (logs w1)
                 (outputChannel w1 ++ [d]))
  end.
Proof.
  intros Hread. cbn [handlePacket_loop]. rewrite Hread. unfold bind.
  destruct (decodeRecord env h record a w) as [d w1|msg]; reflexivity.
Qed.

Lemma handlePacket_loop_encoded (env : Env) (h : header) (a : UDPAddr) :
  resolver_ok env ->
  forall (prs : list (padding * binaryRecord)) (w : World),
    Forall wf_binaryRecord (map snd prs) ->
    exists ds w',
      handlePacket_loop env (length prs) h (encode_records prs) a w = Ok tt w' /\
      outputChannel w' = outputChannel w ++ ds /\
      map embedded_binaryRecord ds = map snd prs /\
      Forall (fun d => embedded_header d
                       = set_SamplingInterval
                           (Z.land 16383 (SamplingInterval h)) h) ds /\
      logs w' = logs w.
Proof.
  intros Hok prs. induction prs as [|[p r] prs IH]; intros w Hwf.
  - exists [], w. cbn. rewrite app_nil_r. auto.
  - cbn [map snd] in Hwf. apply Forall_cons in Hwf as [Hr Hwf].
    cbn [length encode_records flat_map fst snd].
    rewrite (handlePacket_loop_step env _ h r _ (encode_records prs))
      by (apply Read_binaryRecord_encode; exact Hr).
    destruct (decodeRecord_total env h r a w Hok)
      as (s & t & w1 & -> & Hl1 & Hc1).
    destruct (IH (mkWorld (cache w1) (clock w1) (lookups w1) (logs w1)
                          (outputChannel w1 ++ [enrich env h r a s t])) Hwf)
      as (ds & w' & Hrun & Hout & Hmap & Hhdr & Hlogs).
    exists (enrich env h r a s t :: ds), w'.
    split; [exact Hrun|]. cbn [outputChannel logs] in Hout, Hlogs.
    split; [rewrite Hout, Hc1, <- app_assoc; reflexivity|].
    split; [cbn [map embedded_binaryRecord enrich snd]; rewrite Hmap; reflexivity|].
    split; [apply Forall_cons; split; [reflexivity|exact Hhdr]|].
    congruence.
Qed.

(** A datagram of 68 bytes holds a header and less than one record. *)
Lemma handlePacket_68_bytes (env : Env) (buf : list byte) (a : UDPAddr)
      (w w' : World) :
  length buf = 68%nat -> handlePacket env buf a w = Ok tt w' ->
  outputChannel w' = outputChannel w.
Proof.
  intros Hlen. unfold handlePacket, Read_header.
  rewrite ReadFull_enough by (unfold header_size; lia).
  destruct (Z.to_nat (FlowRecords (dec_header (take header_size buf)).1))
    as [|n].
  - cbn. intros Heq. injection Heq as <-. reflexivity.
  - cbn [handlePacket_loop]. unfold Read_binaryRecord.
    destruct (ReadFull_short binaryRecord_size (drop header_size buf))
      as (e & ->).
    { rewrite length_drop. unfold header_size, binaryRecord_size. lia. }
    cbn. intros Heq. injection Heq as <-. reflexivity.
Qed.

(** C3, as stated, fails: a header laid out on 20 bytes, whatever its layout,
    does not round-trip even for one record, since [handlePacket] takes the
    first 24 bytes of the datagram for the header. *)
Lemma roundtrip_fails_with_20_byte_header :
  ~ exists encode20 : header -> list byte,
      (forall h, length (encode20 h) = 20%nat) /\
      (forall h prs a w,
          wf_header h -> Forall wf_binaryRecord (map snd prs) ->
          FlowRecords h = Z.of_nat (length prs) ->
          exists ds w',
            handlePacket sample_env (encode20 h ++ encode_records prs) a w
            = Ok tt w' /\
            outputChannel w' = outputChannel w ++ ds /\
            map embedded_binaryRecord ds = map snd prs).
Proof.
  intros (encode20 & Hlen & Hrt).
  destruct (Hrt sample_header [(sample_padding, sample_record)] sample_addr
              World_init) as (ds & w' & Hrun & Hout & Hmap).
  - unfold wf_header, is_uint8, is_uint16, is_uint32; cbn. lia.
  - repeat constructor; unfold is_uint8, is_uint16, is_uint32; cbn; lia.
  - reflexivity.
  - apply handlePacket_68_bytes in Hrun.
    + rewrite Hrun in Hout. cbn [outputChannel World_init app] in Hout.
      subst ds. discriminate Hmap.
    + rewrite length_app, Hlen. reflexivity.
Qed.

(** C3 (amended). Encoding a header and N raw records into the big-endian
    byte layout of the structures (a 24-byte header followed by N records of
    48 bytes, reserved bytes included, whatever they hold) and decoding the
    datagram emits exactly N decoded records, in order, whose embedded raw
    records equal the originals field for field and whose header is the
    original one but for the decoded sampling interval; nothing is logged. *)
Theorem handlePacket_roundtrip (env : Env) (h : header)
        (prs : list (padding * binaryRecord)) (a : UDPAddr) (w : World) :
  resolver_ok env ->
  wf_header h -> Forall wf_binaryRecord (map snd prs) ->
  FlowRecords h = Z.of_nat (length prs) ->
  length (encode_header h) = 24%nat /\
  length (encode_records prs) = (48 * length prs)%nat /\
  exists ds w',
    handlePacket env (encode_header h ++ encode_records prs) a w = Ok tt w' /\
    outputChannel w' = outputChannel w ++ ds /\
    length ds = length prs /\
    map embedded_binaryRecord ds = map snd prs /\
    Forall (fun d => embedded_header d
                     = set_SamplingInterval
                         (Z.land 16383 (SamplingInterval h)) h) ds /\
    logs w' = logs w.
Proof.
  intros Hok Hh Hrs Hn.
  split; [reflexivity|]. split.
  { clear. induction prs as [|[p r] prs IH]; [reflexivity|].
    cbn [encode_records flat_map fst snd length].
    rewrite length_app, length_encode_binaryRecord.
    unfold encode_records in IH. rewrite IH. unfold binaryRecord_size. lia. }
  unfold handlePacket. rewrite Read_header_encode by exact Hh.
  rewrite Hn, Nat2Z.id.
  destruct (handlePacket_loop_encoded env h a Hok prs w Hrs)
    as (ds & w' & Hrun & Hout & Hmap & Hhdr & Hlogs).
  exists ds, w'. split; [exact Hrun|]. split; [exact Hout|].
  split; [|split; [exact Hmap|split; [exact Hhdr|exact Hlogs]]].
  apply (f_equal length) in Hmap. rewrite !length_map in Hmap. exact Hmap.
Qed.

Lemma sample_header_wf : wf_header sample_header.
Proof. unfold wf_header, is_uint8, is_uint16, is_uint32; cbn; lia. Defined.

Lemma sample_record_wf : wf_binaryRecord sample_record.
Proof. unfold wf_binaryRecord, is_uint8, is_uint16, is_uint32; cbn; lia. Defined.

Lemma handlePacket_roundtrip_witness :
  resolver_ok sample_env /\ wf_header sample_header /\
  Forall wf_binaryRecord [sample_record] /\
  FlowRecords sample_header = 1 /\
  exists ds w',
    handlePacket sample_env
      (encode_header sample_header
       ++ encode_records [(sample_padding, sample_record)])
      sample_addr World_init
    = Ok tt w' /\
    outputChannel w' = ds /\ length ds = 1%nat /\
    map embedded_binaryRecord ds = [sample_record].
Proof.
  assert (Hrs : Forall wf_binaryRecord
                  (map snd [(sample_padding, sample_record)]))
    by (apply Forall_cons; split; [exact sample_record_wf|apply Forall_nil_2]).
  split; [exact sample_env_resolver_ok|]. split; [exact sample_header_wf|].
  split; [exact Hrs|]. split; [reflexivity|].
  destruct (handlePacket_roundtrip sample_env sample_header
              [(sample_padding, sample_record)] sample_addr World_init
              sample_env_resolver_ok sample_header_wf Hrs eq_refl)
    as (_ & _ & ds & w' & Hrun & Hout & Hlen & Hmap & _ & _).
  exists ds, w'. split; [exact Hrun|]. split; [exact Hout|].
  split; [exact Hlen|exact Hmap].
Defined.

Lemma complete_records_short (buf : list byte) :
  (length buf < binaryRecord_size)%nat -> complete_records buf = 0%nat.
Proof. unfold complete_records. apply Nat.div_small. Qed.

Lemma complete_records_drop (buf : list byte) :
  (binaryRecord_size <= length buf)%nat ->
  complete_records buf = S (complete_records (drop binaryRecord_size buf)).
Proof.
  unfold complete_records. rewrite length_drop. unfold binaryRecord_size.
  intros Hle.
  pose proof (Nat.div_mod_eq (length buf) 48) as H1.
  pose proof (Nat.mod_upper_bound (length buf) 48 ltac:(lia)) as H2.
  pose proof (Nat.div_mod_eq (length buf - 48) 48) as H3.
  pose proof (Nat.mod_upper_bound (length buf - 48) 48 ltac:(lia)) as H4.
  lia.
Qed.

Lemma record_at_drop (buf : list byte) (i : nat) :
  record_at (drop binaryRecord_size buf) i = record_at buf (S i).
Proof.
  unfold record_at. rewrite drop_drop. reflexivity.
Qed.

Lemma Read_binaryRecord_short (buf : list byte) :
  (length buf < binaryRecord_size)%nat ->
  Read_binaryRecord buf = (inr (read_error buf), []).
Proof.
  intros Hlt. unfold Read_binaryRecord, ReadFull, read_error.
  destruct buf as [|b bs]; [reflexivity|].
  apply Nat.ltb_lt in Hlt as Hltb. rewrite Hltb.
  rewrite Nat.mod_small by exact Hlt. reflexivity.
Qed.

Lemma Read_binaryRecord_enough (buf : list byte) :
  (binaryRecord_size <= length buf)%nat ->
  Read_binaryRecord buf = (inl (record_at buf 0), drop binaryRecord_size buf).
Proof.
  intros Hle. unfold Read_binaryRecord.
  rewrite ReadFull_enough by (unfold binaryRecord_size in *; lia).
  reflexivity.
Qed.

Lemma read_error_drop (buf : list byte) :
  (binaryRecord_size <= length buf)%nat ->
  read_error (drop binaryRecord_size buf) = read_error buf.
Proof.
  intros Hle. unfold read_error. rewrite length_drop.
  replace ((length buf - binaryRecord_size) mod binaryRecord_size)%nat
    with (length buf mod binaryRecord_size)%nat; [reflexivity|].
  unfold binaryRecord_size in *.
  pose proof (Nat.div_mod_eq (length buf) 48) as H1.
  pose proof (Nat.mod_upper_bound (length buf) 48 ltac:(lia)) as H2.
  pose proof (Nat.div_mod_eq (length buf - 48) 48) as H3.
  pose proof (Nat.mod_upper_bound (length buf - 48) 48 ltac:(lia)) as H4.
  lia.
Qed.

(** What the loop does on any buffer: it emits a record for each of the
    complete slots it is asked for, in order, and logs one error when it is
    asked for more. *)
Lemma handlePacket_loop_run (env : Env) (h : header) (a : UDPAddr) :
  resolver_ok env ->
  forall (n : nat) (buf : list byte) (w : World),
    exists ds w',
      handlePacket_loop env n h buf a w = Ok tt w' /\
      outputChannel w' = outputChannel w ++ ds /\
      length ds = Nat.min n (complete_records buf) /\
      (forall i d, ds !! i = Some d ->
                   exists s t, d = enrich env h (record_at buf i) a s t) /\
      logs w' = logs w ++
                (if (n <=? complete_records buf)%nat then []
                 else ["binary.Read failed: " +:+ Error (read_error buf)]).
Proof.
  intros Hok n. induction n as [|n IH]; intros buf w.
  - exists [], w. cbn. rewrite !app_nil_r.
    repeat split; try reflexivity. intros i d Hd. discriminate.
  - destruct (Nat.lt_ge_cases (length buf) binaryRecord_size) as [Hlt|Hge].
    + cbn [handlePacket_loop]. rewrite Read_binaryRecord_short by exact Hlt.
      rewrite complete_records_short by exact Hlt.
      eexists [], _. split; [reflexivity|]. cbn. rewrite app_nil_r.
      repeat split; try reflexivity. intros i d Hd. discriminate.
    + rewrite (handlePacket_loop_step env n h _ buf _ a w
                 (Read_binaryRecord_enough buf Hge)).
      destruct (decodeRecord_total env h (record_at buf 0) a w Hok)
        as (s & t & w1 & -> & Hl1 & Hc1).
      destruct (IH (drop binaryRecord_size buf)
                  (mkWorld (cache w1) (clock w1) (lookups w1) (logs w1)
                     (outputChannel w1
                      ++ [enrich env h (record_at buf 0) a s t])))
        as (ds & w' & Hrun & Hout & Hlen & Hds & Hlogs).
      cbn [outputChannel logs] in Hout, Hlogs.
      exists (enrich env h (record_at buf 0) a s t :: ds), w'.
      split; [exact Hrun|].
      split; [rewrite Hout, Hc1, <- app_assoc; reflexivity|].
      rewrite (complete_records_drop buf Hge).
      split; [cbn [length]; rewrite Hlen; lia|].
      split.
      * intros [|i] d Hd.
        -- injection Hd as <-. eauto.
        -- cbn in Hd. apply Hds in Hd as (s' & t' & ->).
           rewrite record_at_drop. eauto.
      * rewrite Hlogs, Hl1, read_error_drop by exact Hge.
        destruct (n <=? complete_records (drop binaryRecord_size buf))%nat eqn:Hle.
        -- apply Nat.leb_le in Hle.
           rewrite (proj2 (Nat.leb_le (S n) _)) by lia. reflexivity.
        -- apply Nat.leb_gt in Hle.
           rewrite (proj2 (Nat.leb_gt (S n) _)) by lia. reflexivity.
Qed.

(** C4. When the header announces more flow records than the payload holds
    complete ones, [handlePacket] emits the complete records, as many as
    there are and in wire order, logs one read error, drops the rest of the
    datagram and returns; the process is not brought down. *)
Theorem handlePacket_truncated (env : Env) (buf : list byte) (a : UDPAddr)
        (w : World) :
  resolver_ok env ->
  (24 <= length buf)%nat ->
  (complete_records (drop 24 buf)
   < Z.to_nat (FlowRecords (fst (dec_header (take 24 buf)))))%nat ->
  exists ds w' e,
    handlePacket env buf a w = Ok tt w' /\
    outputChannel w' = outputChannel w ++ ds /\
    length ds = complete_records (drop 24 buf) /\
    (forall i d, ds !! i = Some d ->
                 embedded_binaryRecord d = record_at (drop 24 buf) i) /\
    logs w' = logs w ++ ["binary.Read failed: " +:+ Error e].
Proof.
  intros Hok Hlen Hk.
  unfold handlePacket, Read_header.
  rewrite ReadFull_enough by (unfold header_size; lia).
  change header_size with 24%nat.
  set (h := fst (dec_header (take 24 buf))) in *.
  destruct (handlePacket_loop_run env h a Hok (Z.to_nat (FlowRecords h))
              (drop 24 buf) w)
    as (ds & w' & Hrun & Hout & Hn & Hds & Hlogs).
  exists ds, w', (read_error (drop 24 buf)).
  split; [exact Hrun|]. split; [exact Hout|].
  split; [lia|]. split.
  - intros i d Hd. apply Hds in Hd as (s & t & ->). reflexivity.
  - rewrite Hlogs. rewrite (proj2 (Nat.leb_gt _ _)) by lia. reflexivity.
Qed.

(** ** The version field *)

Lemma lookUpWithCache_frame (env : Env) (ipAddr : string) (w w' : World)
      (hostname : string) :
  lookUpWithCache env ipAddr w = Ok hostname w' ->
  logs w' = logs w /\ outputChannel w' = outputChannel w.
Proof.
  rewrite lookUpWithCache_run.
  assert (Href : forall c, refreshed env ipAddr c w = Ok hostname w' ->
                           logs w' = logs w /\ outputChannel w' = outputChannel w).
  { intros c. unfold refreshed.
    destruct (resolver env (length (lookups w)) ipAddr) as [[|n names] [err|]];
      intros Heq; try discriminate; injection Heq as <- <-; split; reflexivity. }
  destruct (cache w !! ipAddr) as [e|]; [|apply Href].
  destruct (bool_decide (e = cacheRecord_zero)); [apply Href|].
  destruct (instant (timeout e) <? clock_reading env (clock w)); [apply Href|].
  intros Heq. injection Heq as <- <-. split; reflexivity.
Qed.

Lemma decodeRecord_frame (env : Env) (h : header) (r : binaryRecord)
      (a : UDPAddr) (w w' : World) (d : decodedRecord) :
  decodeRecord env h r a w = Ok d w' ->
  logs w' = logs w /\ outputChannel w' = outputChannel w.
Proof.
  rewrite decodeRecord_run.
  destruct (lookUpWithCache env _ w) as [s w1|msg] eqn:H1; [|discriminate].
  destruct (lookUpWithCache env _ w1) as [t w2|msg] eqn:H2; [|discriminate].
  intros Heq. injection Heq as <- <-.
  apply lookUpWithCache_frame in H1 as [Hl1 Hc1].
  apply lookUpWithCache_frame in H2 as [Hl2 Hc2].
  split; congruence.
Qed.

Lemma lookUpWithCache_retag (env : Env) (ipAddr : string) (v : Z) (k : nat)
      (w : World) :
  lookUpWithCache env ipAddr (retag v k w)
  = outcome_world (retag v k) (lookUpWithCache env ipAddr w).
Proof.
  rewrite !lookUpWithCache_run. cbn [cache clock retag].
  assert (Href : forall c, refreshed env ipAddr c (retag v k w)
                           = outcome_world (retag v k) (refreshed env ipAddr c w)).
  { intros c. unfold refreshed. cbn [lookups retag].
    destruct (resolver env (length (lookups w)) ipAddr) as [[|n names] [err|]];
      reflexivity. }
  destruct (cache w !! ipAddr) as [e|]; [|apply Href].
  destruct (bool_decide (e = cacheRecord_zero)); [apply Href|].
  destruct (instant (timeout e) <? clock_reading env (clock w)); [apply Href|].
  reflexivity.
Qed.

Lemma decodeRecord_retag (env : Env) (h : header) (r : binaryRecord)
      (a : UDPAddr) (v : Z) (k : nat) (w : World) :
  decodeRecord env (set_Version v h) r a (retag v k w)
  = match decodeRecord env h r a w with
    | Ok d w' => Ok (with_header (set_Version v) d) (retag v k w')
    | Panic msg => Panic msg
    end.
Proof.
  rewrite !decodeRecord_run, lookUpWithCache_retag.
  destruct (lookUpWithCache env _ w) as [s w1|msg]; [|reflexivity].
  cbn [outcome_world]. rewrite lookUpWithCache_retag.
  destruct (lookUpWithCache env _ w1) as [t w2|msg]; reflexivity.
Qed.

Lemma retag_send (v : Z) (k : nat) (w : World) (d : decodedRecord) :
  (k <= length (outputChannel w))%nat ->
  retag v k (mkWorld (cache w) (clock w) (lookups w) (logs w)
                     (outputChannel w ++ [d]))
  = mkWorld (cache (retag v k w)) (clock (retag v k w)) (lookups (retag v k w))
            (logs (retag v k w))
            (outputChannel (retag v k w) ++ [with_header (set_Version v) d]).
Proof.
  intros Hk. unfold retag. cbn [cache clock lookups logs outputChannel].
  rewrite take_app_le, drop_app_le by exact Hk.
  rewrite map_app, <- app_assoc. reflexivity.
Qed.

Lemma handlePacket_loop_retag (env : Env) (h : header) (a : UDPAddr) (v : Z)
      (k : nat) :
  forall (n : nat) (buf : list byte) (w : World),
    (k <= length (outputChannel w))%nat ->
    handlePacket_loop env n (set_Version v h) buf a (retag v k w)
    = outcome_world (retag v k) (handlePacket_loop env n h buf a w).
Proof.
  induction n as [|n IH]; intros buf w Hk; [reflexivity|].
  destruct (Read_binaryRecord buf) as [[record|err] rest] eqn:Hread.
  - rewrite !(handlePacket_loop_step env n _ record buf rest) by exact Hread.
    rewrite decodeRecord_retag.
    destruct (decodeRecord env h record a w) as [d w1|msg] eqn:Hdec;
      [|reflexivity].
    apply decodeRecord_frame in Hdec as [_ Hc].
    rewrite <- IH by (cbn [outputChannel]; rewrite length_app, Hc; lia).
    rewrite retag_send by (rewrite Hc; exact Hk). reflexivity.
  - cbn [handlePacket_loop]. rewrite Hread. reflexivity.
Qed.

Lemma handlePacket_loop_extends (env : Env) (h : header) (a : UDPAddr) :
  forall (n : nat) (buf : list byte) (w w' : World),
    handlePacket_loop env n h buf a w = Ok tt w' ->
    exists ds, outputChannel w' = outputChannel w ++ ds.
Proof.
  induction n as [|n IH]; intros buf w w' Hrun.
  - injection Hrun as <-. exists []. rewrite app_nil_r. reflexivity.
  - destruct (Read_binaryRecord buf) as [[record|err] rest] eqn:Hread.
    + rewrite (handlePacket_loop_step env n _ record buf rest) in Hrun
        by exact Hread.
      destruct (decodeRecord env h record a w) as [d w1|msg] eqn:Hdec;
        [|discriminate].
      apply decodeRecord_frame in Hdec as [_ Hc].
      apply IH in Hrun as (ds & Hds). cbn [outputChannel] in Hds.
      exists (d :: ds). rewrite Hds, Hc, <- app_assoc. reflexivity.
    + cbn [handlePacket_loop] in Hrun. rewrite Hread in Hrun.
      injection Hrun as <-. exists []. rewrite app_nil_r. reflexivity.
Qed.

(** The invariant of the cache holds from the start and through every
    datagram. *)
Lemma decodeRecord_cache_wf (env : Env) (h : header) (r : binaryRecord)
      (a : UDPAddr) (w w' : World) (d : decodedRecord) :
  cache_wf w -> decodeRecord env h r a w = Ok d w' -> cache_wf w'.
Proof.
  intros Hwf. unfold decodeRecord, bind, ret.
  destruct (lookUpWithCache env _ w) as [s w1|msg] eqn:H1; [|discriminate].
  destruct (lookUpWithCache env _ w1) as [t w2|msg] eqn:H2; [|discriminate].
  intros Heq. injection Heq as _ <-.
  eapply lookUpWithCache_cache_wf; [|exact H2].
  eapply lookUpWithCache_cache_wf; [exact Hwf|exact H1].
Qed.

Lemma handlePacket_loop_cache_wf (env : Env) (h : header) (a : UDPAddr) :
  forall (n : nat) (buf : list byte) (w w' : World),
    cache_wf w -> handlePacket_loop env n h buf a w = Ok tt w' -> cache_wf w'.
Proof.
  induction n as [|n IH]; intros buf w w' Hwf Hrun.
  - injection Hrun as <-. exact Hwf.
  - destruct (Read_binaryRecord buf) as [[record|err] rest] eqn:Hread.
    + rewrite (handlePacket_loop_step env n _ record buf rest) in Hrun
        by exact Hread.
      destruct (decodeRecord env h record a w) as [d w1|msg] eqn:Hdec;
        [|discriminate].
      apply IH in Hrun; [exact Hrun|].
      exact (decodeRecord_cache_wf env h record a w w1 d Hwf Hdec).
    + cbn [handlePacket_loop] in Hrun. rewrite Hread in Hrun.
      injection Hrun as <-. exact Hwf.
Qed.

Lemma handlePacket_cache_wf (env : Env) (buf : list byte) (a : UDPAddr)
      (w w' : World) :
  cache_wf w -> handlePacket env buf a w = Ok tt w' -> cache_wf w'.
Proof.
  intros Hwf. unfold handlePacket.
  destruct (Read_header buf) as [[h|err] rest].
  - apply handlePacket_loop_cache_wf. exact Hwf.
  - intros Heq. injection Heq as <-. exact Hwf.
Qed.

Lemma dec_header_with_version (v : Z) (block : list byte) :
  fst (dec_header (enc_uint16 v ++ drop 2 block))
  = set_Version (uint16 v) (fst (dec_header block)).
Proof.
  unfold dec_header, dec_bind, dec_ret.
  rewrite dec_enc_uint16.
  change (dec_uint16 block)
    with (Z.lor (nth_byte block 1) (Z.shiftl (nth_byte block 0) 8),
          drop 2 block).
  generalize (drop 2 block). intros rest.
  repeat match goal with
         | |- context [let (_, _) := ?x in _] =>
             lazymatch x with
             | (_, _) => fail
             | _ => destruct x as [? ?]
             end
         end.
  reflexivity.
Qed.

Lemma length_with_version (v : Z) (buf : list byte) :
  (2 <= length buf)%nat -> length (with_version v buf) = length buf.
Proof.
  intros Hlen. unfold with_version. rewrite length_app, length_drop.
  cbn [length enc_uint16]. lia.
Qed.

Lemma Read_header_with_version (v : Z) (buf : list byte) :
  (24 <= length buf)%nat ->
  Read_header buf = (inl (fst (dec_header (take 24 buf))), drop 24 buf) /\
  Read_header (with_version v buf)
  = (inl (set_Version (uint16 v) (fst (dec_header (take 24 buf)))),
     drop 24 buf).
Proof.
  intros Hlen. unfold Read_header.
  rewrite !ReadFull_enough
    by (rewrite ?length_with_version by lia; unfold header_size; lia).
  split; [reflexivity|].
  change header_size with 24%nat. unfold with_version.
  replace (take 24 (enc_uint16 v ++ drop 2 buf))
    with (enc_uint16 v ++ take 22 (drop 2 buf))
    by (symmetry; apply (take_app_add' _ _ 2 22); reflexivity).
  replace (drop 24 (enc_uint16 v ++ drop 2 buf)) with (drop 22 (drop 2 buf))
    by (symmetry; apply (drop_app_add' _ _ 2 22); reflexivity).
  rewrite take_drop_commute, drop_drop. cbn [Nat.add].
  rewrite dec_header_with_version. reflexivity.
Qed.

Lemma Read_header_short (buf : list byte) :
  (0 < length buf < 24)%nat ->
  Read_header buf = (inr ErrUnexpectedEOF, []).
Proof.
  intros Hlen. unfold Read_header, ReadFull.
  destruct buf as [|b bs]; [cbn in Hlen; lia|].
  rewrite (proj2 (Nat.ltb_lt _ _)) by (unfold header_size; lia).
  reflexivity.
Qed.

Lemma retag_id (v : Z) (w : World) :
  retag v (length (outputChannel w)) w = w.
Proof.
  unfold retag. rewrite take_ge, drop_ge by lia. cbn [map].
  rewrite app_nil_r. destruct w; reflexivity.
Qed.

Lemma retag_extends (v : Z) (w w1 : World) (ds : list decodedRecord) :
  outputChannel w1 = outputChannel w ++ ds ->
  retag v (length (outputChannel w)) w1
  = mkWorld (cache w1) (clock w1) (lookups w1) (logs w1)
            (outputChannel w ++ map (with_header (set_Version v)) ds).
Proof.
  intros Hds. unfold retag. rewrite Hds, take_app_length, drop_app_length.
  reflexivity.
Qed.

(** C8. [handlePacket] never looks at the version field: whatever value is
    written over the first two bytes of a datagram, the same flow records
    are decoded and emitted (each carrying that value in its copy of the
    header), the same lines are logged and the cache ends in the same
    state. *)
Theorem handlePacket_version_blind (env : Env) (buf : list byte) (v : Z)
        (a : UDPAddr) (w : World) :
  (2 <= length buf)%nat ->
  match handlePacket env buf a w with
  | Ok _ w1 =>
      exists ds,
        outputChannel w1 = outputChannel w ++ ds /\
        handlePacket env (with_version v buf) a w
        = Ok tt (mkWorld (cache w1) (clock w1) (lookups w1) (logs w1)
                         (outputChannel w
                          ++ map (with_header (set_Version (uint16 v))) ds))
  | Panic msg => handlePacket env (with_version v buf) a w = Panic msg
  end.
Proof.
  intros Hlen. unfold handlePacket.
  destruct (Nat.lt_ge_cases (length buf) 24) as [Hshort|Hlong].
  - rewrite !Read_header_short by (rewrite ?length_with_version; lia).
    exists []. cbn. rewrite app_nil_r. split; reflexivity.
  - destruct (Read_header_with_version v buf Hlong) as [-> ->].
    set (h := fst (dec_header (take 24 buf))).
    change (FlowRecords (set_Version (uint16 v) h)) with (FlowRecords h).
    pose proof (handlePacket_loop_retag env h a (uint16 v)
                  (length (outputChannel w)) (Z.to_nat (FlowRecords h))
                  (drop 24 buf) w (le_n _)) as Hre.
    rewrite retag_id in Hre. rewrite Hre. clear Hre.
    destruct (handlePacket_loop env (Z.to_nat (FlowRecords h)) h (drop 24 buf)
                a w) as [[] w1|msg] eqn:Hrun; [|reflexivity].
    apply handlePacket_loop_extends in Hrun as (ds & Hds).
    exists ds. split; [exact Hds|].
    cbn [outcome_world]. rewrite (retag_extends _ w w1 ds Hds). reflexivity.
Qed.

Lemma handlePacket_version_blind_witness :
  (2 <= length sample_datagram)%nat /\
  match handlePacket sample_env sample_datagram sample_addr World_init with
  | Ok _ w1 =>
      exists ds,
        outputChannel w1 = outputChannel World_init ++ ds /\
        handlePacket sample_env (with_version 9 sample_datagram) sample_addr
                     World_init
        = Ok tt (mkWorld (cache w1) (clock w1) (lookups w1) (logs w1)
                         (outputChannel World_init
                          ++ map (with_header (set_Version (uint16 9))) ds))
  | Panic msg =>
      handlePacket sample_env (with_version 9 sample_datagram) sample_addr
                   World_init = Panic msg
  end.
Proof.
  assert (Hlen : (2 <= length sample_datagram)%nat) by (cbn; lia).
  split; [exact Hlen|].
  exact (handlePacket_version_blind sample_env sample_datagram 9 sample_addr
           World_init Hlen).
Defined.

(** A datagram that says version 9 is decoded like any other. *)
Example handlePacket_version_9 :
  with_version 9 sample_datagram
  = encode_header sample_header_v9
    ++ encode_records [(sample_padding, sample_record)] /\
  match handlePacket sample_env (with_version 9 sample_datagram) sample_addr
                     World_init with
  | Ok _ w' =>
      outputChannel w' = [with_header (set_Version 9) sample_decoded] /\
      logs w' = []
  | Panic _ => False
  end.
Proof. split; [reflexivity|]. vm_compute. split; reflexivity. Qed.

Lemma handlePacket_truncated_witness :
  resolver_ok sample_env /\
  (24 <= length truncated_datagram)%nat /\
  (complete_records (drop 24 truncated_datagram)
   < Z.to_nat (FlowRecords (fst (dec_header (take 24 truncated_datagram)))))%nat /\
  exists ds w' e,
    handlePacket sample_env truncated_datagram sample_addr World_init
    = Ok tt w' /\
    outputChannel w' = ds /\
    length ds = 1%nat /\
    logs w' = ["binary.Read failed: " +:+ Error e].
Proof.
  assert (Hlen : (24 <= length truncated_datagram)%nat) by (cbn; lia).
  assert (Hk : (complete_records (drop 24 truncated_datagram)
                < Z.to_nat (FlowRecords
                              (fst (dec_header (take 24 truncated_datagram)))))%nat)
    by (vm_compute; lia).
  split; [exact sample_env_resolver_ok|]. split; [exact Hlen|].
  split; [exact Hk|].
  destruct (handlePacket_truncated sample_env truncated_datagram sample_addr
              World_init sample_env_resolver_ok Hlen Hk)
    as (ds & w' & e & Hrun & Hout & Hn & _ & Hlogs).
  exists ds, w', e. split; [exact Hrun|]. split; [exact Hout|].
  split; [exact Hn|exact Hlogs].
Defined.

(** Two records announced, one present: one record out, one line logged. *)
Example handlePacket_two_announced_one_present :
  FlowRecords (fst (dec_header (take 24 truncated_datagram))) = 2 /\
  complete_records (drop 24 truncated_datagram) = 1%nat /\
  match handlePacket sample_env truncated_datagram sample_addr World_init with
  | Ok _ w' =>
      outputChannel w'
      = [with_header (set_FlowRecords 2) sample_decoded] /\
      logs w' = ["binary.Read failed: unexpected EOF"]
  | Panic _ => False
  end.
Proof. split; [reflexivity|]. split; [reflexivity|]. vm_compute. split; reflexivity. Qed.

(** * Further properties of the code *)

(** ** What a datagram yields *)

Lemma handlePacket_run_long (env : Env) (buf : list byte) (a : UDPAddr)
        (w : World) :
  resolver_ok env ->
  (24 <= length buf)%nat ->
  exists ds w',
    handlePacket env buf a w = Ok tt w' /\
    outputChannel w' = outputChannel w ++ ds /\
    length ds
    = Nat.min (Z.to_nat (FlowRecords (fst (dec_header (take 24 buf)))))
              (complete_records (drop 24 buf)) /\
    (forall i d,
        ds !! i = Some d ->
        embedded_binaryRecord d = record_at (drop 24 buf) i /\
        embedded_header d
        = set_SamplingInterval
            (Z.land 16383
               (SamplingInterval (fst (dec_header (take 24 buf)))))
            (fst (dec_header (take 24 buf))) /\
        Host d = IP_String env (UDPAddr_IP a)) /\
    logs w'
    = logs w ++
      (if (Z.to_nat (FlowRecords (fst (dec_header (take 24 buf))))
           <=? complete_records (drop 24 buf))%nat
       then []
       else ["binary.Read failed: " +:+ Error (read_error (drop 24 buf))]).
Proof.
  intros Hok Hlen.
  unfold handlePacket, Read_header.
  rewrite ReadFull_enough by (unfold header_size; lia).
  change header_size with 24%nat.
  set (h := fst (dec_header (take 24 buf))) in *.
  destruct (handlePacket_loop_run env h a Hok (Z.to_nat (FlowRecords h))
              (drop 24 buf) w)
    as (ds & w' & Hrun & Hout & Hn & Hds & Hlogs).
  exists ds, w'. split; [exact Hrun|]. split; [exact Hout|].
  split; [exact Hn|]. split; [|exact Hlogs].
  intros i d Hd. apply Hds in Hd as (s & t & ->). repeat split.
Qed.

(** [handlePacket] emits a record for each complete 48-byte slot up to the
    announced count, in wire order, each with the datagram's header and the
    sender's address; bytes after the announced records are ignored, and one
    read error is logged exactly when fewer slots are present than
    announced. *)
Theorem handlePacket_emits_min (env : Env) (buf : list byte) (a : UDPAddr)
        (w : World) :
  resolver_ok env ->
  (24 <= length buf)%nat ->
  exists ds w',
    handlePacket env buf a w = Ok tt w' /\
    outputChannel w' = outputChannel w ++ ds /\
    length ds
    = Nat.min (Z.to_nat (FlowRecords (fst (dec_header (take 24 buf)))))
              (complete_records (drop 24 buf)) /\
    (forall i d,
        ds !! i = Some d ->
        embedded_binaryRecord d = record_at (drop 24 buf) i /\
        embedded_header d
        = set_SamplingInterval
            (Z.land 16383
               (SamplingInterval (fst (dec_header (take 24 buf)))))
            (fst (dec_header (take 24 buf))) /\
        Host d = IP_String env (UDPAddr_IP a)) /\
    logs w'
    = logs w ++
      (if (Z.to_nat (FlowRecords (fst (dec_header (take 24 buf))))
           <=? complete_records (drop 24 buf))%nat
       then []
       else ["binary.Read failed: " +:+ Error (read_error (drop 24 buf))]).
Proof.
  intros Hok Hlen.
  unfold handlePacket, Read_header.
  rewrite ReadFull_enough by (unfold header_size; lia).
  change header_size with 24%nat.
  set (h := fst (dec_header (take 24 buf))) in *.
  destruct (handlePacket_loop_run env h a Hok (Z.to_nat (FlowRecords h))
              (drop 24 buf) w)
    as (ds & w' & Hrun & Hout & Hn & Hds & Hlogs).
  exists ds, w'. split; [exact Hrun|]. split; [exact Hout|].
  split; [exact Hn|]. split; [|exact Hlogs].
  intros i d Hd. apply Hds in Hd as (s & t & ->). repeat split.
Qed.

Lemma handlePacket_emits_min_witness :
  resolver_ok sample_env /\ (24 <= length truncated_datagram)%nat /\
  exists ds w',
    handlePacket sample_env truncated_datagram sample_addr World_init
    = Ok tt w' /\
    outputChannel w' = ds /\ length ds = 1%nat.
Proof.
  assert (Hlen : (24 <= length truncated_datagram)%nat) by (cbn; lia).
  split; [exact sample_env_resolver_ok|]. split; [exact Hlen|].
  destruct (handlePacket_emits_min sample_env truncated_datagram sample_addr
              World_init sample_env_resolver_ok Hlen)
    as (ds & w' & Hrun & Hout & Hn & _).
  exists ds, w'. split; [exact Hrun|]. split; [exact Hout|exact Hn].
Defined.

Lemma handlePacket_run_short (env : Env) (buf : list byte)
        (a : UDPAddr) (w : World) :
  (length buf < 24)%nat ->
  handlePacket env buf a w
  = Ok tt (mkWorld (cache w) (clock w) (lookups w)
                   (logs w ++ ["Error: " +:+ Error (header_error buf)])
                   (outputChannel w)).
Proof.
  intros Hlen. unfold handlePacket, Read_header, ReadFull, header_error.
  destruct buf as [|b bs]; [reflexivity|].
  rewrite (proj2 (Nat.ltb_lt _ _)) by (unfold header_size; exact Hlen).
  reflexivity.
Qed.

(** A datagram shorter than the 24-byte header is dropped: one line is
    logged, nothing is emitted, the resolver is not asked and the cache and
    the clock are left alone. *)
Theorem handlePacket_short_datagram (env : Env) (buf : list byte)
        (a : UDPAddr) (w : World) :
  (length buf < 24)%nat ->
  handlePacket env buf a w
  = Ok tt (mkWorld (cache w) (clock w) (lookups w)
                   (logs w ++ ["Error: " +:+ Error (header_error buf)])
                   (outputChannel w)).
Proof.
  intros Hlen. unfold handlePacket, Read_header, ReadFull, header_error.
  destruct buf as [|b bs]; [reflexivity|].
  rewrite (proj2 (Nat.ltb_lt _ _)) by (unfold header_size; exact Hlen).
  reflexivity.
Qed.

Lemma handlePacket_short_datagram_witness :
  (length (take 23 sample_datagram) < 24)%nat /\
  handlePacket sample_env (take 23 sample_datagram) sample_addr World_init
  = Ok tt (mkWorld ∅ 0 [] ["Error: unexpected EOF"] []).
Proof.
  assert (Hlen : (length (take 23 sample_datagram) < 24)%nat) by (cbn; lia).
  split; [exact Hlen|].
  exact (handlePacket_short_datagram sample_env (take 23 sample_datagram)
           sample_addr World_init Hlen).
Defined.

Lemma complete_records_le (buf : list byte) (n : nat) :
  (length buf <= 48 * n + 47)%nat -> (complete_records buf <= n)%nat.
Proof.
  unfold complete_records, binaryRecord_size. intros Hle.
  pose proof (Nat.div_mod_eq (length buf) 48) as H1.
  pose proof (Nat.mod_upper_bound (length buf) 48 ltac:(lia)) as H2.
  lia.
Qed.

(** The receive buffer of [main] is 4096 bytes long, so one datagram never
    yields more than 84 records, whatever count its header announces. *)
Theorem handlePacket_at_most_84_records (env : Env) (buf : list byte)
        (a : UDPAddr) (w : World) :
  resolver_ok env ->
  (length buf <= 4096)%nat ->
  exists ds w',
    handlePacket env buf a w = Ok tt w' /\
    outputChannel w' = outputChannel w ++ ds /\
    (length ds <= 84)%nat.
Proof.
  intros Hok Hlen.
  destruct (Nat.lt_ge_cases (length buf) 24) as [Hshort|Hlong].
  - rewrite (handlePacket_run_short env buf a w Hshort).
    eexists [], _. split; [reflexivity|]. cbn [outputChannel length].
    rewrite app_nil_r. split; [reflexivity|lia].
  - destruct (handlePacket_run_long env buf a w Hok Hlong)
      as (ds & w' & Hrun & Hout & Hn & _).
    exists ds, w'. split; [exact Hrun|]. split; [exact Hout|].
    assert (Hk : (complete_records (drop 24 buf) <= 84)%nat)
      by (apply complete_records_le; rewrite length_drop; lia).
    lia.
Qed.

Lemma handlePacket_at_most_84_records_witness :
  resolver_ok sample_env /\ (length sample_datagram <= 4096)%nat /\
  exists ds w',
    handlePacket sample_env sample_datagram sample_addr World_init
    = Ok tt w' /\
    outputChannel w' = ds /\ (length ds <= 84)%nat.
Proof.
  assert (Hlen : (length sample_datagram <= 4096)%nat) by (cbn; lia).
  split; [exact sample_env_resolver_ok|]. split; [exact Hlen|].
  exact (handlePacket_at_most_84_records sample_env sample_datagram
           sample_addr World_init sample_env_resolver_ok Hlen).
Defined.

(** ** What parsing keeps *)

Lemma uint8_bytes_range (bs : list byte) (i : nat) : is_uint8 (nth_byte bs i).
Proof. unfold is_uint8, nth_byte. pow2_consts. apply byte_val_range. Qed.

Lemma uint16_bytes_range (x y : Z) :
  0 <= x < 256 -> 0 <= y < 256 -> is_uint16 (Z.lor y (Z.shiftl x 8)).
Proof.
  intros Hx Hy. unfold is_uint16.
  rewrite lor_shiftl_add by (pow2_consts; lia). pow2_consts. lia.
Qed.

Lemma uint32_bytes_range (x0 x1 x2 x3 : Z) :
  0 <= x0 < 256 -> 0 <= x1 < 256 -> 0 <= x2 < 256 -> 0 <= x3 < 256 ->
  is_uint32 (Z.lor (Z.lor (Z.lor x3 (Z.shiftl x2 8)) (Z.shiftl x1 16))
                   (Z.shiftl x0 24)).
Proof.
  intros H0 H1 H2 H3. unfold is_uint32.
  rewrite (lor_shiftl_add _ _ 8) by (pow2_consts; lia).
  rewrite (lor_shiftl_add _ _ 16) by (pow2_consts; lia).
  rewrite (lor_shiftl_add _ _ 24) by (pow2_consts; lia).
  pow2_consts. lia.
Qed.

Ltac field_range :=
  first [ apply uint8_bytes_range
        | unfold nth_byte; apply uint16_bytes_range; apply byte_val_range
        | unfold nth_byte; apply uint32_bytes_range; apply byte_val_range ].

Lemma dec_header_wf (block : list byte) : wf_header (fst (dec_header block)).
Proof.
  unfold dec_header, dec_bind, dec_ret, dec_uint8, dec_uint16, dec_uint32,
    wf_header.
  cbn [fst snd Version FlowRecords Uptime UnixSec UnixNsec FlowSeqNum
       EngineType EngineID SamplingInterval].
  repeat split; field_range.
Qed.

Lemma dec_binaryRecord_wf (block : list byte) :
  wf_binaryRecord (fst (dec_binaryRecord block)).
Proof.
  unfold dec_binaryRecord, dec_bind, dec_ret, dec_skip, dec_uint8, dec_uint16,
    dec_uint32, wf_binaryRecord.
  cbn [fst snd Ipv4SrcAddrInt Ipv4DstAddrInt Ipv4NextHopInt InputSnmp
       OutputSnmp InPkts InBytes FirstInt LastInt L4SrcPort L4DstPort
       TCPFlags Protocol SrcTos SrcAs DstAs SrcMask DstMask].
  repeat split; field_range.
Qed.

Lemma enrich_wf (env : Env) (h : header) (r : binaryRecord) (a : UDPAddr)
      (s t : string) :
  wf_header h -> wf_binaryRecord r -> wf_decodedRecord (enrich env h r a s t).
Proof.
  intros (Hv & Hn & Hu & Hs & Hns & Hq & Het & Hei & Hsi) Hr.
  unfold wf_decodedRecord, wf_header.
  cbn [embedded_header embedded_binaryRecord SamplingAlgorithm Duration enrich
       set_SamplingInterval Version FlowRecords Uptime UnixSec UnixNsec
       FlowSeqNum EngineType EngineID SamplingInterval].
  split_and!; try assumption.
  - unfold is_uint16. rewrite Z.land_comm. change 16383 with (Z.ones 14).
    rewrite Z.land_ones by lia.
    pose proof (Z.mod_pos_bound (SamplingInterval h) (2 ^ 14) ltac:(lia)).
    change (2 ^ 14) with 16384 in *. pow2_consts. lia.
  - unfold is_uint8, uint8. apply Z.mod_pos_bound. lia.
  - unfold is_uint16, uint16. apply Z.mod_pos_bound. lia.
Qed.

(** Whatever bytes a datagram holds, every field of every record it yields
    lies within its declared width: addresses, counters and timestamps below
    2^32, ports, interfaces and AS numbers below 2^16, the duration below
    2^16, the sampling algorithm below 2^8. *)
Theorem handlePacket_fields_in_range (env : Env) (buf : list byte)
        (a : UDPAddr) (w : World) :
  resolver_ok env ->
  exists ds w',
    handlePacket env buf a w = Ok tt w' /\
    outputChannel w' = outputChannel w ++ ds /\
    Forall wf_decodedRecord ds.
Proof.
  intros Hok.
  destruct (Nat.lt_ge_cases (length buf) 24) as [Hshort|Hlong].
  - rewrite (handlePacket_run_short env buf a w Hshort).
    eexists [], _. split; [reflexivity|]. cbn [outputChannel].
    rewrite app_nil_r. split; [reflexivity|apply Forall_nil_2].
  - unfold handlePacket, Read_header.
    rewrite ReadFull_enough by (unfold header_size; lia).
    set (h := fst (dec_header (take header_size buf))).
    destruct (handlePacket_loop_run env h a Hok (Z.to_nat (FlowRecords h))
                (drop header_size buf) w)
      as (ds & w' & Hrun & Hout & _ & Hds & _).
    exists ds, w'. split; [exact Hrun|]. split; [exact Hout|].
    apply Forall_lookup. intros i d Hd.
    apply Hds in Hd as (s & t & ->).
    apply enrich_wf; [apply dec_header_wf|apply dec_binaryRecord_wf].
Qed.

Lemma handlePacket_fields_in_range_witness :
  resolver_ok sample_env /\
  exists ds w',
    handlePacket sample_env truncated_datagram sample_addr World_init
    = Ok tt w' /\
    outputChannel w' = ds /\ Forall wf_decodedRecord ds.
Proof.
  split; [exact sample_env_resolver_ok|].
  exact (handlePacket_fields_in_range sample_env truncated_datagram
           sample_addr World_init sample_env_resolver_ok).
Defined.

Lemma to_byte_of (z : Z) (b : byte) : z mod 256 = byte_val b -> to_byte z = b.
Proof.
  intros Hz. unfold to_byte, uint8. change (2 ^ 8) with 256. rewrite Hz.
  unfold byte_val. rewrite N2Z.id, Byte.of_to_N. reflexivity.
Qed.

Lemma enc_uint8_byte (x : byte) : enc_uint8 (byte_val x) = [x].
Proof.
  unfold enc_uint8. f_equal. apply to_byte_of.
  pose proof (byte_val_range x). apply Z.mod_small. lia.
Qed.

Lemma enc_uint16_bytes (x y : byte) :
  enc_uint16 (Z.lor (byte_val y) (Z.shiftl (byte_val x) 8)) = [x; y].
Proof.
  pose proof (byte_val_range x). pose proof (byte_val_range y).
  unfold enc_uint16.
  rewrite lor_shiftl_add by (pow2_consts; lia).
  rewrite Z.shiftr_div_pow2 by lia. pow2_consts.
  f_equal; [|f_equal]; apply to_byte_of; divlia.
Qed.

Lemma enc_uint32_bytes (x0 x1 x2 x3 : byte) :
  enc_uint32 (Z.lor (Z.lor (Z.lor (byte_val x3) (Z.shiftl (byte_val x2) 8))
                           (Z.shiftl (byte_val x1) 16))
                    (Z.shiftl (byte_val x0) 24))
  = [x0; x1; x2; x3].
Proof.
  pose proof (byte_val_range x0). pose proof (byte_val_range x1).
  pose proof (byte_val_range x2). pose proof (byte_val_range x3).
  unfold enc_uint32.
  rewrite (lor_shiftl_add _ _ 8) by (pow2_consts; lia).
  rewrite (lor_shiftl_add _ _ 16) by (pow2_consts; lia).
  rewrite (lor_shiftl_add _ _ 24) by (pow2_consts; lia).
  rewrite !Z.shiftr_div_pow2 by lia. pow2_consts.
  f_equal; [apply to_byte_of; divlia|].
  f_equal; [apply to_byte_of; divlia|].
  f_equal; [apply to_byte_of; divlia|].
  f_equal. apply to_byte_of. divlia.
Qed.

Tactic Notation "explicit_block" ident(block) ident(Hlen) integer(n) :=
  do n (destruct block as [|? block]; [discriminate Hlen|]);
  destruct block; [clear Hlen|discriminate Hlen].

(** Encoding what was decoded gives the block back. *)
Lemma encode_dec_header (block : list byte) :
  length block = 24%nat -> encode_header (fst (dec_header block)) = block.
Proof.
  intros Hlen. explicit_block block Hlen 24.
  unfold dec_header, dec_bind, dec_ret, dec_uint8, dec_uint16, dec_uint32,
    encode_header, nth_byte.
  cbn [fst snd nth skipn Version FlowRecords Uptime UnixSec UnixNsec
       FlowSeqNum EngineType EngineID SamplingInterval].
  rewrite !enc_uint16_bytes, !enc_uint32_bytes, !enc_uint8_byte.
  reflexivity.
Qed.

Lemma encode_dec_binaryRecord (block : list byte) :
  length block = 48%nat ->
  encode_binaryRecord (mkPadding Byte.x00 Byte.x00 Byte.x00)
                      (fst (dec_binaryRecord block))
  = clear_reserved block.
Proof.
  intros Hlen. explicit_block block Hlen 48.
  unfold dec_binaryRecord, dec_bind, dec_ret, dec_skip, dec_uint8, dec_uint16,
    dec_uint32, encode_binaryRecord, nth_byte.
  cbn [fst snd nth skipn Ipv4SrcAddrInt Ipv4DstAddrInt Ipv4NextHopInt InputSnmp
       OutputSnmp InPkts InBytes FirstInt LastInt L4SrcPort L4DstPort
       TCPFlags Protocol SrcTos SrcAs DstAs SrcMask DstMask pad1 pad2 pad3].
  rewrite !enc_uint16_bytes, !enc_uint32_bytes, !enc_uint8_byte.
  reflexivity.
Qed.

Lemma dec_clear_reserved (block : list byte) :
  length block = 48%nat ->
  fst (dec_binaryRecord (clear_reserved block)) = fst (dec_binaryRecord block).
Proof.
  intros Hlen. explicit_block block Hlen 48. reflexivity.
Qed.

Lemma Read_header_inl (buf rest : list byte) (h : header) :
  Read_header buf = (inl h, rest) ->
  (24 <= length buf)%nat /\ h = fst (dec_header (take 24 buf)).
Proof.
  unfold Read_header, ReadFull.
  destruct buf as [|b bs]; [discriminate|].
  destruct (length (b :: bs) <? header_size)%nat eqn:Hlt; [discriminate|].
  apply Nat.ltb_ge in Hlt. intros Heq. injection Heq as <- _.
  split; [exact Hlt|reflexivity].
Qed.

(** Reading a header loses nothing: two datagrams whose headers read the
    same begin with the same 24 bytes. *)
Theorem Read_header_injective (buf1 buf2 rest1 rest2 : list byte) (h : header) :
  Read_header buf1 = (inl h, rest1) ->
  Read_header buf2 = (inl h, rest2) ->
  take 24 buf1 = take 24 buf2.
Proof.
  intros H1 H2.
  apply Read_header_inl in H1 as [Hl1 ->].
  apply Read_header_inl in H2 as [Hl2 Heq].
  rewrite <- (encode_dec_header (take 24 buf1)) by (rewrite length_take; lia).
  rewrite <- (encode_dec_header (take 24 buf2)) by (rewrite length_take; lia).
  rewrite Heq. reflexivity.
Qed.

Lemma Read_header_injective_witness :
  take 24 sample_datagram = take 24 (encode_header sample_header).
Proof.
  apply (Read_header_injective sample_datagram (encode_header sample_header)
           (encode_records [(sample_padding, sample_record)]) []
           sample_header); reflexivity.
Defined.

(** Reading a flow record ignores its three reserved bytes and nothing
    else: two buffers give the same record exactly when their first 48 bytes
    agree everywhere but at offsets 36, 46 and 47. *)
Theorem Read_binaryRecord_reserved_bytes (buf1 buf2 : list byte) :
  (48 <= length buf1)%nat -> (48 <= length buf2)%nat ->
  (fst (Read_binaryRecord buf1) = fst (Read_binaryRecord buf2) <->
   clear_reserved (take 48 buf1) = clear_reserved (take 48 buf2)).
Proof.
  intros Hl1 Hl2.
  rewrite !Read_binaryRecord_enough by (unfold binaryRecord_size; lia).
  cbn [fst]. unfold record_at. cbn [Nat.mul]. rewrite !drop_0.
  change binaryRecord_size with 48%nat.
  assert (H1 : length (take 48 buf1) = 48%nat) by (rewrite length_take; lia).
  assert (H2 : length (take 48 buf2) = 48%nat) by (rewrite length_take; lia).
  split.
  - intros Heq.
    assert (Hr : fst (dec_binaryRecord (take 48 buf1))
                 = fst (dec_binaryRecord (take 48 buf2))).
    { remember (fst (dec_binaryRecord (take 48 buf1))) as r1.
      remember (fst (dec_binaryRecord (take 48 buf2))) as r2.
      congruence. }
    rewrite <- (encode_dec_binaryRecord _ H1), <- (encode_dec_binaryRecord _ H2).
    rewrite Hr. reflexivity.
  - intros Heq.
    rewrite <- (dec_clear_reserved _ H1), <- (dec_clear_reserved _ H2), Heq.
    reflexivity.
Qed.

Lemma Read_binaryRecord_reserved_bytes_witness :
  fst (Read_binaryRecord (encode_binaryRecord sample_padding sample_record))
  = fst (Read_binaryRecord
           (encode_binaryRecord (mkPadding Byte.x00 Byte.x00 Byte.x00)
                                sample_record)).
Proof.
  apply (proj2 (Read_binaryRecord_reserved_bytes
                  (encode_binaryRecord sample_padding sample_record)
                  (encode_binaryRecord (mkPadding Byte.x00 Byte.x00 Byte.x00)
                                       sample_record)
                  ltac:(cbn; lia) ltac:(cbn; lia))).
  reflexivity.
Defined.

(** ** More on the DNS cache *)

Lemma refreshed_inv (env : Env) (ipAddr : string) (c : nat) (w w' : World)
      (hostname : string) :
  refreshed env ipAddr c w = Ok hostname w' ->
  hostname = resolved_name ipAddr (resolver env (length (lookups w)) ipAddr) /\
  w' = mkWorld
         (<[ipAddr := mkCacheRecord hostname
                        (mkTime (Local_next_day env (clock_reading env c))
                                Local)]> (cache w))
         (S c) (lookups w ++ [ipAddr]) (logs w) (outputChannel w).
Proof.
  unfold refreshed.
  destruct (resolver env (length (lookups w)) ipAddr) as [[|n names] [err|]];
    intros Heq; try discriminate; injection Heq as <- <-; split; reflexivity.
Qed.

(** The two ways a call of [lookUpWithCache] can return. *)
Lemma lookUpWithCache_inv (env : Env) (ipAddr : string) (w w' : World)
      (hostname : string) :
  lookUpWithCache env ipAddr w = Ok hostname w' ->
  (exists e, cache w !! ipAddr = Some e /\ e <> cacheRecord_zero /\
             clock_reading env (clock w) <= instant (timeout e) /\
             hostname = Hostname e /\ w' = tick w) \/
  (exists c, refreshed env ipAddr c w = Ok hostname w').
Proof.
  rewrite lookUpWithCache_run.
  destruct (cache w !! ipAddr) as [e|] eqn:Hget; [|right; eauto].
  destruct (bool_decide (e = cacheRecord_zero)) eqn:Hz; [right; eauto|].
  apply bool_decide_eq_false in Hz.
  destruct (instant (timeout e) <? clock_reading env (clock w)) eqn:Hlt;
    [right; eauto|].
  apply Z.ltb_ge in Hlt. intros Heq. injection Heq as <- <-.
  left. exists e. auto.
Qed.

Lemma lookUpWithCache_entry (env : Env) (ipAddr : string) (w w' : World)
      (hostname : string) :
  lookUpWithCache env ipAddr w = Ok hostname w' ->
  exists e, cache w' !! ipAddr = Some e /\ Hostname e = hostname /\
            e <> cacheRecord_zero.
Proof.
  intros Hrun. apply lookUpWithCache_inv in Hrun
    as [(e & Hget & Hnz & _ & -> & ->)|(c & Hc)].
  - exists e. auto.
  - apply refreshed_inv in Hc as [_ ->]. cbn [cache].
    eexists. rewrite lookup_insert_eq. split; [reflexivity|].
    split; [reflexivity|discriminate].
Qed.

Lemma lookUpWithCache_hit_again (env : Env) (ipAddr : string) (w : World)
      (e : cacheRecord) :
  cache w !! ipAddr = Some e -> e <> cacheRecord_zero ->
  clock_reading env (clock w) <= instant (timeout e) ->
  lookUpWithCache env ipAddr w
  = Ok (Hostname e)
       (mkWorld (cache w) (S (clock w)) (lookups w) (logs w) (outputChannel w)).
Proof.
  intros Hget Hnz Hle. rewrite lookUpWithCache_run, Hget.
  rewrite bool_decide_eq_false_2 by exact Hnz.
  rewrite (proj2 (Z.ltb_ge _ _)) by exact Hle. reflexivity.
Qed.

(** Insert then look up: after any call for an address the cache holds the
    returned hostname under it, and a further call made while the clock has
    not passed that entry's expiry returns the same hostname without asking
    the resolver and without touching the cache. *)
Theorem lookUpWithCache_second_call (env : Env) (ipAddr : string) (w : World) :
  resolver_ok env ->
  exists hostname w1 e,
    lookUpWithCache env ipAddr w = Ok hostname w1 /\
    cache w1 !! ipAddr = Some e /\ Hostname e = hostname /\
    (clock_reading env (clock w1) <= instant (timeout e) ->
     lookUpWithCache env ipAddr w1
     = Ok hostname
          (mkWorld (cache w1) (S (clock w1)) (lookups w1) (logs w1)
                   (outputChannel w1))).
Proof.
  intros Hok.
  destruct (lookUpWithCache_total env ipAddr w Hok) as (hn & w1 & Hrun & _).
  destruct (lookUpWithCache_entry env ipAddr w w1 hn Hrun)
    as (e & Hget & Hhn & Hnz).
  exists hn, w1, e. split; [exact Hrun|]. split; [exact Hget|].
  split; [exact Hhn|].
  intros Hle. rewrite <- Hhn.
  apply lookUpWithCache_hit_again; assumption.
Qed.

Lemma lookUpWithCache_second_call_witness :
  resolver_ok sample_env /\
  exists hostname w1,
    lookUpWithCache sample_env "10.0.0.1" World_init = Ok hostname w1 /\
    lookUpWithCache sample_env "10.0.0.1" w1
    = Ok hostname
         (mkWorld (cache w1) (S (clock w1)) (lookups w1) (logs w1)
                  (outputChannel w1)).
Proof.
  split; [exact sample_env_resolver_ok|].
  destruct (lookUpWithCache_second_call sample_env "10.0.0.1" World_init
              sample_env_resolver_ok)
    as (hn & w1 & e & Hrun & Hget & Hhn & Hagain).
  exists hn, w1. split; [exact Hrun|]. apply Hagain.
  assert (Hw1 : lookUpWithCache sample_env "10.0.0.1" World_init
                = Ok "gw.example."
                     (mkWorld
                        (<["10.0.0.1" := mkCacheRecord "gw.example."
                             (mkTime (1000 + nanoseconds_per_day) Local)]> ∅)
                        1 ["10.0.0.1"] [] []))
    by reflexivity.
  rewrite Hw1 in Hrun. injection Hrun as <- <-.
  cbn [cache] in Hget. rewrite lookup_insert_eq in Hget. injection Hget as <-.
  cbn. unfold nanoseconds_per_day. lia.
Defined.

(** A failed resolution is cached like a successful one: the address itself
    becomes the hostname and is stored until the same time of the next
    calendar day (what [AddDate(0, 0, 1)] makes of the clock's reading at
    the write); a further call made no later than that returns it without
    asking the resolver again. *)
Theorem lookUpWithCache_failure_cached (env : Env) (ipAddr : string)
        (w : World) (names : list string) (err : error) :
  cache w !! ipAddr = None ->
  resolver env (length (lookups w)) ipAddr = (names, Some err) ->
  let expiry := Time_AddDate_0_0_1 env
                  (mkTime (clock_reading env (clock w)) Local) in
  let w1 := mkWorld (<[ipAddr := mkCacheRecord ipAddr expiry]> (cache w))
                    (S (clock w)) (lookups w ++ [ipAddr]) (logs w)
                    (outputChannel w) in
  lookUpWithCache env ipAddr w = Ok ipAddr w1 /\
  (clock_reading env (S (clock w)) <= instant expiry ->
   lookUpWithCache env ipAddr w1
   = Ok ipAddr
        (mkWorld (cache w1) (S (S (clock w))) (lookups w ++ [ipAddr]) (logs w)
                 (outputChannel w))).
Proof.
  intros Hmiss Hanswer expiry w1. split.
  - rewrite lookUpWithCache_run, Hmiss. unfold refreshed. rewrite Hanswer.
    destruct names; reflexivity.
  - intros Hle.
    apply (lookUpWithCache_hit_again env ipAddr w1
             (mkCacheRecord ipAddr expiry)).
    + subst w1. cbn [cache]. apply lookup_insert_eq.
    + discriminate.
    + exact Hle.
Qed.

Lemma lookUpWithCache_failure_cached_witness :
  lookUpWithCache sample_env "10.0.0.2" World_init
  = Ok "10.0.0.2"
       (mkWorld
          (<["10.0.0.2" := mkCacheRecord "10.0.0.2"
                             (mkTime (1000 + 86400000000000) Local)]> ∅)
          1 ["10.0.0.2"] [] []).
Proof.
  exact (proj1 (lookUpWithCache_failure_cached sample_env "10.0.0.2"
                  World_init [] (DNSError "no such host") eq_refl eq_refl)).
Defined.

Lemma cache_grows_refl (w : World) : cache_grows w w.
Proof. intros key H. exact H. Qed.

Lemma cache_grows_trans (w1 w2 w3 : World) :
  cache_grows w1 w2 -> cache_grows w2 w3 -> cache_grows w1 w3.
Proof. intros H12 H23 key H. apply H23, H12, H. Qed.

(** What one call does to the rest of the state: other keys keep their
    entries, no key is lost, and the resolver is asked at most once, about
    the address itself. *)
Lemma lookUpWithCache_trace (env : Env) (ipAddr : string) (w w' : World)
      (hostname : string) :
  lookUpWithCache env ipAddr w = Ok hostname w' ->
  (forall key, key <> ipAddr -> cache w' !! key = cache w !! key) /\
  cache_grows w w' /\
  exists l, lookups w' = lookups w ++ l /\ l `sublist_of` [ipAddr].
Proof.
  intros Hrun. apply lookUpWithCache_inv in Hrun
    as [(e & Hget & Hnz & _ & -> & ->)|(c & Hc)].
  - split; [reflexivity|]. split; [intros key H; exact H|].
    exists []. cbn [lookups tick]. rewrite app_nil_r.
    split; [reflexivity|apply sublist_nil_l].
  - apply refreshed_inv in Hc as [_ ->]. cbn [cache lookups].
    split; [intros key Hne; apply lookup_insert_ne; congruence|].
    split.
    + intros key His. cbn [cache].
      destruct (decide (ipAddr = key)) as [->|Hne].
      * rewrite lookup_insert_eq. eauto.
      * rewrite lookup_insert_ne by exact Hne. exact His.
    + exists [ipAddr]. split; reflexivity.
Qed.

Lemma decodeRecord_trace (env : Env) (h : header) (r : binaryRecord)
      (a : UDPAddr) (w w' : World) (d : decodedRecord) :
  decodeRecord env h r a w = Ok d w' ->
  cache_grows w w' /\
  exists l, lookups w' = lookups w ++ l /\ l `sublist_of` looked_up d.
Proof.
  rewrite decodeRecord_run.
  destruct (lookUpWithCache env _ w) as [s w1|msg] eqn:H1; [|discriminate].
  destruct (lookUpWithCache env _ w1) as [t w2|msg] eqn:H2; [|discriminate].
  intros Heq. injection Heq as <- <-.
  apply lookUpWithCache_trace in H1 as (_ & Hg1 & l1 & Hl1 & Hs1).
  apply lookUpWithCache_trace in H2 as (_ & Hg2 & l2 & Hl2 & Hs2).
  split; [exact (cache_grows_trans _ _ _ Hg1 Hg2)|].
  exists (l1 ++ l2). split; [rewrite Hl2, Hl1, app_assoc; reflexivity|].
  exact (sublist_app _ _ _ _ Hs1 Hs2).
Qed.

Lemma handlePacket_loop_trace (env : Env) (h : header) (a : UDPAddr) :
  forall (n : nat) (buf : list byte) (w w' : World),
    handlePacket_loop env n h buf a w = Ok tt w' ->
    cache_grows w w' /\
    exists ds l,
      outputChannel w' = outputChannel w ++ ds /\
      lookups w' = lookups w ++ l /\
      l `sublist_of` flat_map looked_up ds.
Proof.
  induction n as [|n IH]; intros buf w w' Hrun.
  - injection Hrun as <-. split; [apply cache_grows_refl|].
    exists [], []. rewrite !app_nil_r. repeat split. apply sublist_nil_l.
  - destruct (Read_binaryRecord buf) as [[record|err] rest] eqn:Hread.
    + rewrite (handlePacket_loop_step env n _ record buf rest) in Hrun
        by exact Hread.
      destruct (decodeRecord env h record a w) as [d w1|msg] eqn:Hdec;
        [|discriminate].
      apply decodeRecord_frame in Hdec as Hfr. destruct Hfr as [_ Hc].
      apply decodeRecord_trace in Hdec as (Hg1 & l1 & Hl1 & Hs1).
      apply IH in Hrun as (Hg2 & ds & l2 & Hds & Hl2 & Hs2).
      cbn [outputChannel lookups] in Hds, Hl2.
      split; [exact (cache_grows_trans _ _ _ Hg1 Hg2)|].
      exists (d :: ds), (l1 ++ l2).
      split; [rewrite Hds, Hc, <- app_assoc; reflexivity|].
      split; [rewrite Hl2, Hl1, app_assoc; reflexivity|].
      cbn [flat_map]. apply sublist_app; assumption.
    + cbn [handlePacket_loop] in Hrun. rewrite Hread in Hrun.
      injection Hrun as <-. split; [intros key H; exact H|].
      exists [], []. cbn [outputChannel lookups]. rewrite !app_nil_r.
      repeat split. apply sublist_nil_l.
Qed.

Lemma handlePacket_trace (env : Env) (buf : list byte) (a : UDPAddr)
      (w w' : World) :
  handlePacket env buf a w = Ok tt w' ->
  cache_grows w w' /\
  exists ds l,
    outputChannel w' = outputChannel w ++ ds /\
    lookups w' = lookups w ++ l /\
    l `sublist_of` flat_map looked_up ds.
Proof.
  unfold handlePacket.
  destruct (Read_header buf) as [[h|err] rest].
  - apply handlePacket_loop_trace.
  - intros Heq. injection Heq as <-. split; [intros key H; exact H|].
    exists [], []. cbn [outputChannel lookups]. rewrite !app_nil_r.
    repeat split. apply sublist_nil_l.
Qed.

Lemma handlePacket_total (env : Env) (buf : list byte) (a : UDPAddr)
      (w : World) :
  resolver_ok env -> exists w', handlePacket env buf a w = Ok tt w'.
Proof.
  intros Hok. unfold handlePacket.
  destruct (Read_header buf) as [[h|err] rest].
  - destruct (handlePacket_loop_run env h a Hok (Z.to_nat (FlowRecords h))
                rest w) as (ds & w' & Hrun & _).
    eauto.
  - eexists. reflexivity.
Qed.

(** A call for one address leaves the entries of all other addresses as they
    were. *)
Theorem lookUpWithCache_other_keys (env : Env) (ipAddr key : string)
        (w : World) :
  resolver_ok env -> key <> ipAddr ->
  exists hostname w',
    lookUpWithCache env ipAddr w = Ok hostname w' /\
    cache w' !! key = cache w !! key.
Proof.
  intros Hok Hne.
  destruct (lookUpWithCache_total env ipAddr w Hok) as (hn & w' & Hrun & _).
  exists hn, w'. split; [exact Hrun|].
  apply lookUpWithCache_trace in Hrun as (Hother & _). apply Hother, Hne.
Qed.

Lemma lookUpWithCache_other_keys_witness :
  resolver_ok sample_env /\ "10.0.0.1" <> "10.0.0.2" /\
  exists hostname w',
    lookUpWithCache sample_env "10.0.0.2" stale_world = Ok hostname w' /\
    cache w' !! "10.0.0.1" = cache stale_world !! "10.0.0.1".
Proof.
  assert (Hne : "10.0.0.1" <> "10.0.0.2") by discriminate.
  split; [exact sample_env_resolver_ok|]. split; [exact Hne|].
  exact (lookUpWithCache_other_keys sample_env "10.0.0.2" "10.0.0.1"
           stale_world sample_env_resolver_ok Hne).
Defined.

(** The cache only grows: handling a datagram never removes an entry, and
    never stores the zero record that the code would read as a missing
    key. *)
Theorem handlePacket_never_evicts (env : Env) (buf : list byte) (a : UDPAddr)
        (w : World) :
  resolver_ok env -> cache_wf w ->
  exists w',
    handlePacket env buf a w = Ok tt w' /\
    (forall key, is_Some (cache w !! key) -> is_Some (cache w' !! key)) /\
    cache_wf w'.
Proof.
  intros Hok Hwf.
  destruct (handlePacket_total env buf a w Hok) as (w' & Hrun).
  exists w'. split; [exact Hrun|]. split.
  - apply handlePacket_trace in Hrun as (Hg & _). exact Hg.
  - exact (handlePacket_cache_wf env buf a w w' Hwf Hrun).
Qed.

Lemma handlePacket_never_evicts_witness :
  resolver_ok sample_env /\ cache_wf stale_world /\
  exists w',
    handlePacket sample_env sample_datagram sample_addr stale_world
    = Ok tt w' /\
    is_Some (cache w' !! "10.0.0.1") /\ cache_wf w'.
Proof.
  split; [exact sample_env_resolver_ok|]. split; [exact stale_world_cache_wf|].
  destruct (handlePacket_never_evicts sample_env sample_datagram sample_addr
              stale_world sample_env_resolver_ok stale_world_cache_wf)
    as (w' & Hrun & Hkeep & Hwf).
  exists w'. split; [exact Hrun|]. split; [|exact Hwf].
  apply Hkeep. cbn [cache stale_world]. rewrite lookup_singleton_eq. eauto.
Defined.

(** The resolver is asked only about source and destination addresses of
    the records emitted, in their order and at most once each: never more
    than two resolutions per record, none for the next hop or the sender. *)
Theorem handlePacket_resolutions (env : Env) (buf : list byte) (a : UDPAddr)
        (w : World) :
  resolver_ok env ->
  exists ds l w',
    handlePacket env buf a w = Ok tt w' /\
    outputChannel w' = outputChannel w ++ ds /\
    lookups w' = lookups w ++ l /\
    l `sublist_of` flat_map (fun d => [Ipv4SrcAddr d; Ipv4DstAddr d]) ds /\
    (length l <= 2 * length ds)%nat.
Proof.
  intros Hok.
  destruct (handlePacket_total env buf a w Hok) as (w' & Hrun).
  destruct (handlePacket_trace env buf a w w' Hrun)
    as (_ & ds & l & Hds & Hl & Hsub).
  exists ds, l, w'. split; [exact Hrun|]. split; [exact Hds|].
  split; [exact Hl|]. split; [exact Hsub|].
  apply sublist_length in Hsub.
  assert (Hlen : length (flat_map looked_up ds) = (2 * length ds)%nat).
  { clear. induction ds as [|d ds IH]; [reflexivity|].
    cbn [flat_map looked_up app length]. rewrite IH. lia. }
  lia.
Qed.

Lemma handlePacket_resolutions_witness :
  resolver_ok sample_env /\
  exists ds l w',
    handlePacket sample_env sample_datagram sample_addr World_init
    = Ok tt w' /\
    outputChannel w' = ds /\ lookups w' = l /\ (length l <= 2 * length ds)%nat.
Proof.
  split; [exact sample_env_resolver_ok|].
  destruct (handlePacket_resolutions sample_env sample_datagram sample_addr
              World_init sample_env_resolver_ok)
    as (ds & l & w' & Hrun & Hds & Hl & _ & Hlen).
  exists ds, l, w'. split; [exact Hrun|]. split; [exact Hds|].
  split; [exact Hl|exact Hlen].
Defined.

(** ** Addresses as text *)

Lemma pretty_N_char_no_dot (x : N) : pretty_N_char x <> "."%char.
Proof. unfold pretty_N_char. repeat case_match; discriminate. Qed.

Lemma pretty_N_go_no_dot (x : N) :
  forall s, no_dot s -> no_dot (pretty_N_go x s).
Proof.
  induction (N.lt_wf_0 x) as [x _ IH]. intros s Hs.
  assert (Hx : (x = 0 \/ 0 < x)%N) by lia. destruct Hx as [->|Hpos].
  - rewrite pretty_N_go_0. exact Hs.
  - rewrite pretty_N_go_step by exact Hpos. apply IH.
    + apply N.div_lt; [exact Hpos|reflexivity].
    + split; [apply pretty_N_char_no_dot|exact Hs].
Qed.

Lemma itoa_no_dot (z : Z) : no_dot (itoa z).
Proof.
  unfold itoa, pretty, pretty_N. case_decide.
  - split; [discriminate|exact I].
  - apply pretty_N_go_no_dot. exact I.
Qed.

Lemma itoa_inj (x y : Z) : 0 <= x -> 0 <= y -> itoa x = itoa y -> x = y.
Proof.
  intros Hx Hy Heq. unfold itoa in Heq. apply pretty_N_inj in Heq. lia.
Qed.

(** Two texts with dot-free heads agree only if heads and tails agree. *)
Lemma dot_split (u u' s s' : string) :
  no_dot u -> no_dot u' ->
  u +:+ String "." s = u' +:+ String "." s' -> u = u' /\ s = s'.
Proof.
  revert u'. induction u as [|c u IH]; intros [|c' u'] Hu Hu' Heq.
  - injection Heq as ->. split; reflexivity.
  - injection Heq as <- _. destruct Hu' as [Hc _]. contradiction.
  - injection Heq as -> _. destruct Hu as [Hc _]. contradiction.
  - change (String c (u +:+ String "." s) = String c' (u' +:+ String "." s'))
      in Heq.
    injection Heq as -> Heq. destruct Hu as [_ Hu]. destruct Hu' as [_ Hu'].
    destruct (IH u' Hu Hu' Heq) as [-> ->]. split; reflexivity.
Qed.

Lemma dotted_inj (a b c d a' b' c' d' : Z) :
  0 <= a -> 0 <= b -> 0 <= c -> 0 <= d ->
  0 <= a' -> 0 <= b' -> 0 <= c' -> 0 <= d' ->
  dotted a b c d = dotted a' b' c' d' ->
  a = a' /\ b = b' /\ c = c' /\ d = d'.
Proof.
  intros Ha Hb Hc Hd Ha' Hb' Hc' Hd'. unfold dotted.
  change ("." +:+ ?s) with (String "." s).
  intros Heq.
  apply dot_split in Heq as [H1 Heq]; try apply itoa_no_dot.
  change ("." +:+ ?s) with (String "." s) in Heq.
  apply dot_split in Heq as [H2 Heq]; try apply itoa_no_dot.
  change ("." +:+ ?s) with (String "." s) in Heq.
  apply dot_split in Heq as [H3 H4]; try apply itoa_no_dot.
  repeat split; apply itoa_inj; assumption.
Qed.

Lemma uint32_octets (z : Z) :
  uint32 z
  = bits z 31 24 * 16777216 + bits z 23 16 * 65536 + bits z 15 8 * 256
    + bits z 7 0.
Proof.
  unfold uint32, bits. cbn [Z.sub Z.add Z.pos_sub Pos.add Pos.succ Z.opp].
  change (2 ^ 0) with 1. change (2 ^ 24) with 16777216.
  change (2 ^ 16) with 65536. change (2 ^ 8) with 256.
  change (2 ^ 32) with 4294967296.
  divlia.
Qed.

Lemma intToIPv4Addr_text (env : Env) (z : Z) :
  IP_String env (intToIPv4Addr z)
  = dotted (bits z 31 24) (bits z 23 16) (bits z 15 8) (bits z 7 0).
Proof.
  unfold intToIPv4Addr. rewrite IP_String_IPv4.
  rewrite !byte_val_shiftr by lia.
  rewrite <- (Z.shiftr_0_r z) at 4.
  rewrite byte_val_shiftr by lia.
  reflexivity.
Qed.

(** Different 32-bit addresses never share a text, so they never share a
    cache entry: equal texts mean equal addresses modulo 2^32. *)
Theorem intToIPv4Addr_text_injective (env : Env) (x y : Z) :
  IP_String env (intToIPv4Addr x) = IP_String env (intToIPv4Addr y) ->
  x mod 2 ^ 32 = y mod 2 ^ 32.
Proof.
  rewrite !intToIPv4Addr_text. intros Heq.
  apply dotted_inj in Heq as (H1 & H2 & H3 & H4);
    try (apply bits_range; lia).
  pose proof (uint32_octets x) as Hx. pose proof (uint32_octets y) as Hy.
  unfold uint32 in Hx, Hy. rewrite Hx, Hy, H1, H2, H3, H4. reflexivity.
Qed.

Lemma intToIPv4Addr_text_injective_witness :
  167772161 mod 2 ^ 32 = (167772161 + 2 ^ 32) mod 2 ^ 32.
Proof.
  apply (intToIPv4Addr_text_injective sample_env). reflexivity.
Defined.

(** The text of an address shows its four wire bytes in wire order: for any
    record block, the source, destination and next-hop texts are the dotted
    decimals of bytes 0..3, 4..7 and 8..11. *)
Theorem dec_binaryRecord_address_text (env : Env) (block : list byte) :
  let r := fst (dec_binaryRecord block) in
  IP_String env (intToIPv4Addr (Ipv4SrcAddrInt r))
  = dotted (nth_byte block 0) (nth_byte block 1) (nth_byte block 2)
           (nth_byte block 3) /\
  IP_String env (intToIPv4Addr (Ipv4DstAddrInt r))
  = dotted (nth_byte block 4) (nth_byte block 5) (nth_byte block 6)
           (nth_byte block 7) /\
  IP_String env (intToIPv4Addr (Ipv4NextHopInt r))
  = dotted (nth_byte block 8) (nth_byte block 9) (nth_byte block 10)
           (nth_byte block 11).
Proof.
  assert (Haddr : forall x0 x1 x2 x3 : byte,
    IP_String env
      (intToIPv4Addr
         (Z.lor (Z.lor (Z.lor (byte_val x3) (Z.shiftl (byte_val x2) 8))
                       (Z.shiftl (byte_val x1) 16))
                (Z.shiftl (byte_val x0) 24)))
    = dotted (byte_val x0) (byte_val x1) (byte_val x2) (byte_val x3)).
  { intros x0 x1 x2 x3.
    pose proof (enc_uint32_bytes x0 x1 x2 x3) as Henc.
    unfold enc_uint32 in Henc. injection Henc as H0 H1 H2 H3.
    unfold intToIPv4Addr. rewrite H0, H1, H2, H3. apply IP_String_IPv4. }
  cbv zeta.
  unfold dec_binaryRecord, dec_bind, dec_ret, dec_skip, dec_uint8, dec_uint16,
    dec_uint32.
  cbn [fst snd Ipv4SrcAddrInt Ipv4DstAddrInt Ipv4NextHopInt].
  unfold nth_byte. rewrite !Haddr, !nth_skipn.
  split_and!; reflexivity.
Qed.

(** Unpacking the sampling field loses nothing: for a 16-bit packed value
    the decoded algorithm (at most 3) and interval (below 2^14) give it
    back as algorithm * 2^14 + interval. *)
Theorem decodeRecord_sampling_lossless (env : Env) (h : header)
        (r : binaryRecord) (a : UDPAddr) (w : World) :
  resolver_ok env -> is_uint16 (SamplingInterval h) ->
  exists d w',
    decodeRecord env h r a w = Ok d w' /\
    0 <= SamplingAlgorithm d <= 3 /\
    SamplingAlgorithm d * 2 ^ 14 + SamplingInterval (embedded_header d)
    = SamplingInterval h.
Proof.
  intros Hok Hraw.
  destruct (decodeRecord_total env h r a w Hok) as (s & t & w' & Hrun & _).
  exists (enrich env h r a s t), w'. split; [exact Hrun|].
  cbn [SamplingAlgorithm embedded_header enrich SamplingInterval
       set_SamplingInterval].
  rewrite land_3_shiftr_14, (Z.land_comm 16383).
  change 3 with (Z.ones 2). change 16383 with (Z.ones 14).
  rewrite !Z.land_ones, Z.shiftr_div_pow2 by lia.
  unfold is_uint16 in Hraw.
  change (2 ^ 2) with 4. change (2 ^ 14) with 16384.
  change (2 ^ 16) with 65536 in Hraw. change (Z.ones 2) with 3.
  split; divlia.
Qed.

Lemma decodeRecord_sampling_lossless_witness :
  resolver_ok sample_env /\ is_uint16 (SamplingInterval sample_header) /\
  exists d w',
    decodeRecord sample_env sample_header sample_record sample_addr World_init
    = Ok d w' /\
    SamplingAlgorithm d * 2 ^ 14 + SamplingInterval (embedded_header d) = 49252.
Proof.
  assert (Hraw : is_uint16 (SamplingInterval sample_header))
    by (unfold is_uint16; cbn; lia).
  split; [exact sample_env_resolver_ok|]. split; [exact Hraw|].
  destruct (decodeRecord_sampling_lossless sample_env sample_header
              sample_record sample_addr World_init sample_env_resolver_ok Hraw)
    as (d & w' & Hrun & _ & Hsum).
  exists d, w'. split; [exact Hrun|exact Hsum].
Defined.

(** ** More on the line protocol *)

Lemma formatLineProtocol_layout (record : decodedRecord) :
  formatLineProtocol record
  = line_protocol "netflow"
      [ ("host", Host record);
        ("srcAddr", Ipv4SrcAddr record);
        ("dstAddr", Ipv4DstAddr record);
        ("srcHostName", SrcHostName record);
        ("dstHostName", DstHostName record);
        ("protocol", itoa (Protocol (embedded_binaryRecord record)));
        ("srcPort", itoa (L4SrcPort (embedded_binaryRecord record)));
        ("dstPort", itoa (L4DstPort (embedded_binaryRecord record)));
        ("input", itoa (InputSnmp (embedded_binaryRecord record)));
        ("output", itoa (OutputSnmp (embedded_binaryRecord record))) ]
      [ ("inBytes", itoa (InBytes (embedded_binaryRecord record)));
        ("inPackets", itoa (InPkts (embedded_binaryRecord record)));
        ("duration", itoa (Duration record)) ]
      (itoa (uint64 (UnixSec (embedded_header record) * 1000000000
                     + UnixNsec (embedded_header record)))).
Proof.
  unfold formatLineProtocol. rewrite timestamp_uint64.
  unfold line_protocol, key_value.
  cbn [map String.concat fst snd].
  rewrite !string_app_assoc.
  cbn [Sprintf]. rewrite string_app_nil_r.
  lazy [String.append]. reflexivity.
Qed.

(** For a record whose header fields have their declared width, as every
    record read from a datagram has, the 64-bit timestamp arithmetic never
    wraps: the line ends with unixSec * 10^9 + unixNsec itself, a value below
    2^63. *)
Theorem formatLineProtocol_timestamp_exact (record : decodedRecord) :
  is_uint32 (UnixSec (embedded_header record)) ->
  is_uint32 (UnixNsec (embedded_header record)) ->
  formatLineProtocol record
  = line_protocol "netflow"
      [ ("host", Host record);
        ("srcAddr", Ipv4SrcAddr record);
        ("dstAddr", Ipv4DstAddr record);
        ("srcHostName", SrcHostName record);
        ("dstHostName", DstHostName record);
        ("protocol", itoa (Protocol (embedded_binaryRecord record)));
        ("srcPort", itoa (L4SrcPort (embedded_binaryRecord record)));
        ("dstPort", itoa (L4DstPort (embedded_binaryRecord record)));
        ("input", itoa (InputSnmp (embedded_binaryRecord record)));
        ("output", itoa (OutputSnmp (embedded_binaryRecord record))) ]
      [ ("inBytes", itoa (InBytes (embedded_binaryRecord record)));
        ("inPackets", itoa (InPkts (embedded_binaryRecord record)));
        ("duration", itoa (Duration record)) ]
      (itoa (UnixSec (embedded_header record) * 1000000000
             + UnixNsec (embedded_header record))) /\
  UnixSec (embedded_header record) * 1000000000
  + UnixNsec (embedded_header record) < 2 ^ 63.
Proof.
  intros Hs Hn. rewrite formatLineProtocol_layout.
  rewrite timestamp_no_wrap by assumption.
  split; [reflexivity|].
  unfold is_uint32 in Hs, Hn. pow2_consts.
  change (2 ^ 63) with 9223372036854775808. lia.
Qed.

Lemma formatLineProtocol_timestamp_exact_witness :
  UnixSec (embedded_header sample_decoded) * 1000000000
  + UnixNsec (embedded_header sample_decoded) < 2 ^ 63.
Proof.
  apply (formatLineProtocol_timestamp_exact sample_decoded);
    unfold is_uint32; cbn; lia.
Defined.

(** ** The UDP sink *)


(** The loop that serves a connection writes one datagram per record, in
    channel order, each holding the record's line, for as long as the
    network accepts the writes: what it has sent is the rendering of the
    first [j] records of the channel, where [j] counts the writes that
    succeeded before the first failure. It stops either with the channel
    empty, everything sent and no write failed, or on the first failed
    write, whose record has left the channel and is not sent again; the
    error of that write is the only line it logs. The clock is read once
    for each write. *)
Theorem serve_connection_in_order (net : Net) (s : Sink) :
  exists j : nat,
    (j <= length (outputChannel (sink_world s)))%nat /\
    (forall (k : nat) (d : decodedRecord),
        (k < j)%nat -> outputChannel (sink_world s) !! k = Some d ->
        write_error net (writes s + k) (formatLineProtocol d) = None) /\
    datagrams (snd (serve_connection net s))
    = datagrams s
      ++ map formatLineProtocol (take j (outputChannel (sink_world s))) /\
    match fst (serve_connection net s) with
    | ChannelEmpty =>
        j = length (outputChannel (sink_world s)) /\
        outputChannel (sink_world (snd (serve_connection net s))) = [] /\
        logs (sink_world (snd (serve_connection net s)))
        = logs (sink_world s) /\
        writes (snd (serve_connection net s)) = (writes s + j)%nat /\
        clock (sink_world (snd (serve_connection net s)))
        = (clock (sink_world s) + j)%nat
    | SendError msg =>
        (exists d : decodedRecord,
            outputChannel (sink_world s) !! j = Some d /\
            write_error net (writes s + j) (formatLineProtocol d)
            = Some msg) /\
        outputChannel (sink_world (snd (serve_connection net s)))
        = drop (S j) (outputChannel (sink_world s)) /\
        logs (sink_world (snd (serve_connection net s)))
        = logs (sink_world s) ++ ["Send Error: " +:+ msg] /\
        writes (snd (serve_connection net s)) = (writes s + S j)%nat /\
        clock (sink_world (snd (serve_connection net s)))
        = (clock (sink_world s) + S j)%nat
    end.
Proof.
  assert (Hloop :
    forall (backlog : list decodedRecord) (s : Sink),
      outputChannel (sink_world s) = backlog ->
      exists j : nat,
        (j <= length backlog)%nat /\
        (forall (k : nat) (d : decodedRecord),
            (k < j)%nat -> backlog !! k = Some d ->
            write_error net (writes s + k) (formatLineProtocol d) = None) /\
        datagrams (snd (send_loop net backlog s))
        = datagrams s ++ map formatLineProtocol (take j backlog) /\
        match fst (send_loop net backlog s) with
        | ChannelEmpty =>
            j = length backlog /\
            outputChannel (sink_world (snd (send_loop net backlog s))) = [] /\
            logs (sink_world (snd (send_loop net backlog s)))
            = logs (sink_world s) /\
            writes (snd (send_loop net backlog s)) = (writes s + j)%nat /\
            clock (sink_world (snd (send_loop net backlog s)))
            = (clock (sink_world s) + j)%nat
        | SendError msg =>
            (exists d : decodedRecord,
                backlog !! j = Some d /\
                write_error net (writes s + j) (formatLineProtocol d)
                = Some msg) /\
            outputChannel (sink_world (snd (send_loop net backlog s)))
            = drop (S j) backlog /\
            logs (sink_world (snd (send_loop net backlog s)))
            = logs (sink_world s) ++ ["Send Error: " +:+ msg] /\
            writes (snd (send_loop net backlog s)) = (writes s + S j)%nat /\
            clock (sink_world (snd (send_loop net backlog s)))
            = (clock (sink_world s) + S j)%nat
        end).
  { clear s.
    induction backlog as [|record backlog IH]; intros s Hchan.
    - exists 0%nat. cbn. rewrite app_nil_r.
      split; [lia|]. split; [intros k d Hk; lia|]. split; [reflexivity|].
      split; [reflexivity|]. split; [exact Hchan|]. split; [reflexivity|].
      split; lia.
    - cbn [send_loop].
      destruct (write_error net (writes s) (formatLineProtocol record))
        as [msg|] eqn:Hw.
      + exists 0%nat. cbn. rewrite app_nil_r.
        split; [lia|]. split; [intros k d Hk; lia|]. split; [reflexivity|].
        split; [exists record; rewrite Nat.add_0_r; split;
                [reflexivity|exact Hw]|].
        split; [reflexivity|]. split; [reflexivity|]. split; lia.
      + set (s1 := mkSink _ _ _).
        destruct (IH s1 eq_refl) as (j & Hj & Hbefore & Hd & Hexit).
        exists (S j). cbn [length take map].
        split; [lia|].
        split.
        { intros [|k] d Hk Hlook.
          - cbn in Hlook. injection Hlook as <-. rewrite Nat.add_0_r.
            exact Hw.
          - cbn in Hlook. rewrite <- Nat.add_succ_comm.
            apply (Hbefore k d); [lia|exact Hlook]. }
        split; [rewrite Hd; subst s1; cbn [datagrams]; rewrite <- app_assoc;
                reflexivity|].
        destruct (fst (send_loop net backlog s1)) as [|msg].
        * destruct Hexit as (-> & Hc & Hl & Hwr & Hcl).
          split; [reflexivity|]. split; [exact Hc|]. split; [exact Hl|].
          split; [rewrite Hwr|rewrite Hcl]; subst s1;
            cbn [writes sink_world clock]; lia.
        * destruct Hexit as ((d & Hlook & Hfail) & Hc & Hl & Hwr & Hcl).
          split.
          { exists d. split; [exact Hlook|].
            rewrite <- Nat.add_succ_comm. exact Hfail. }
          split; [exact Hc|]. split; [exact Hl|].
          split; [rewrite Hwr|rewrite Hcl]; subst s1;
            cbn [writes sink_world clock]; lia.
  }
  exact (Hloop (outputChannel (sink_world s)) s eq_refl).
Qed.

(** Three records waiting, the second write fails: the first record is
    sent, the second is lost, the third stays in the channel. *)
Example serve_connection_second_write_fails :
  serve_connection second_write_fails sample_sink
  = (SendError "write: connection refused",
     mkSink (mkWorld ∅ 2 [] ["Send Error: write: connection refused"]
               [with_header (set_FlowRecords 2) sample_decoded])
            [formatLineProtocol sample_decoded] 2).
Proof. reflexivity. Qed.



(** ** Goroutines *)

Lemma goroutine_run_add (env : Env) (k1 k2 : nat) (g : goroutine) (w : World) :
  goroutine_run env (k1 + k2) g w
  = goroutine_run env k2 (fst (goroutine_run env k1 g w))
                  (snd (goroutine_run env k1 g w)).
Proof.
  revert g w. induction k1 as [|k1 IH]; intros g w; [reflexivity|].
  cbn [Nat.add goroutine_run].
  destruct (goroutine_step env g w) as [g' w']. apply IH.
Qed.

Lemma in_lookup_src (env : Env) (n : nat) (h : header) (r : binaryRecord)
      (buf : list byte) (a : UDPAddr) :
  in_lookup env (IP_String env (intToIPv4Addr (Ipv4SrcAddrInt r)))
            (fun pc => AtSrc pc n h r buf a)
            (fun s => AtDst LLoad s n h r buf a).
Proof. intros pc w. reflexivity. Qed.

Lemma in_lookup_dst (env : Env) (s : string) (n : nat) (h : header)
      (r : binaryRecord) (buf : list byte) (a : UDPAddr) :
  in_lookup env (IP_String env (intToIPv4Addr (Ipv4DstAddrInt r)))
            (fun pc => AtDst pc s n h r buf a)
            (fun t => AtSend (enrich env h r a s t) n h buf a).
Proof. intros pc w. reflexivity. Qed.

(** The steps of a resolution and store, from [LResolve]. *)
Lemma refresh_steps (env : Env) (ipAddr : string)
      (K : lookup_pc -> goroutine) (R : string -> goroutine) (w : World) :
  in_lookup env ipAddr K R ->
  match refreshed env ipAddr (clock w) w with
  | Ok hostname w' => goroutine_run env 2 (K LResolve) w = (R hostname, w')
  | Panic msg => fst (goroutine_run env 1 (K LResolve) w) = Crashed msg
  end.
Proof.
  intros HK. unfold refreshed, resolved_name.
  assert (Hres : goroutine_step env (K LResolve) w
                 = match resolver env (length (lookups w)) ipAddr with
                   | ([], None) => (Crashed index_panic, w)
                   | (hostname :: _, None) =>
                       (K (LStore hostname),
                        mkWorld (cache w) (clock w) (lookups w ++ [ipAddr])
                                (logs w) (outputChannel w))
                   | (_, Some _) =>
                       (K (LStore ipAddr),
                        mkWorld (cache w) (clock w) (lookups w ++ [ipAddr])
                                (logs w) (outputChannel w))
                   end).
  { rewrite HK. unfold lookup_step, bind, net_LookupAddr, index0, ret, panic.
    destruct (resolver env (length (lookups w)) ipAddr)
      as [[|n names] [err|]]; reflexivity. }
  assert (Hstore : forall hostname w1,
             goroutine_step env (K (LStore hostname)) w1
             = (R hostname,
                mkWorld (<[ipAddr := mkCacheRecord hostname
                             (mkTime (Local_next_day env
                                        (clock_reading env (clock w1)))
                                     Local)]> (cache w1))
                        (S (clock w1)) (lookups w1) (logs w1)
                        (outputChannel w1))).
  { intros hostname w1. rewrite HK. reflexivity. }
  cbn [goroutine_run]. rewrite Hres.
  destruct (resolver env (length (lookups w)) ipAddr) as [[|n names] [err|]];
    cbn [fst snd hd]; try reflexivity; rewrite Hstore; reflexivity.
Qed.

Lemma refresh_steps_ticked (env : Env) (ipAddr : string)
      (K : lookup_pc -> goroutine) (R : string -> goroutine) (w : World) :
  in_lookup env ipAddr K R ->
  match refreshed env ipAddr (S (clock w)) w with
  | Ok hostname w' => goroutine_run env 2 (K LResolve) (tick w) = (R hostname, w')
  | Panic msg => fst (goroutine_run env 1 (K LResolve) (tick w)) = Crashed msg
  end.
Proof.
  intros HK. pose proof (refresh_steps env ipAddr K R (tick w) HK) as H.
  unfold refreshed in *. cbn [tick lookups clock cache logs outputChannel] in H.
  exact H.
Qed.

(** A call of [lookUpWithCache] is what its steps do one after the other. *)
Lemma lookup_steps (env : Env) (ipAddr : string)
      (K : lookup_pc -> goroutine) (R : string -> goroutine) (w : World) :
  in_lookup env ipAddr K R ->
  exists k : nat,
    match lookUpWithCache env ipAddr w with
    | Ok hostname w' => goroutine_run env k (K LLoad) w = (R hostname, w')
    | Panic msg => fst (goroutine_run env k (K LLoad) w) = Crashed msg
    end.
Proof.
  intros HK. rewrite lookUpWithCache_run.
  assert (Hload : goroutine_step env (K LLoad) w
                  = (K (if bool_decide (default cacheRecord_zero
                                          (cache w !! ipAddr) = cacheRecord_zero)
                        then LResolve
                        else LCheck (default cacheRecord_zero
                                       (cache w !! ipAddr))), w)).
  { rewrite HK. unfold lookup_step, bind, cache_load, ret.
    destruct (bool_decide _); reflexivity. }
  destruct (cache w !! ipAddr) as [e|] eqn:Hget; cbn [from_option id] in Hload.
  - destruct (bool_decide (e = cacheRecord_zero)).
    + pose proof (refresh_steps env ipAddr K R w HK) as Hres.
      destruct (refreshed env ipAddr (clock w) w) as [hn w'|msg].
      * exists 3%nat. change 3%nat with (1 + 2)%nat.
        rewrite goroutine_run_add. cbn [goroutine_run]. rewrite Hload.
        exact Hres.
      * exists 2%nat. change 2%nat with (1 + 1)%nat.
        rewrite goroutine_run_add. cbn [goroutine_run]. rewrite Hload.
        exact Hres.
    + assert (Hcheck : goroutine_step env (K (LCheck e)) w
                       = (if instant (timeout e) <? clock_reading env (clock w)
                          then K LResolve else R (Hostname e), tick w)).
      { rewrite HK. unfold lookup_step, bind, time_Now, ret, Time_After.
        cbn [instant]. destruct (_ <? _); reflexivity. }
      destruct (instant (timeout e) <? clock_reading env (clock w)).
      * pose proof (refresh_steps_ticked env ipAddr K R w HK) as Hres.
        destruct (refreshed env ipAddr (S (clock w)) w) as [hn w'|msg].
        -- exists 4%nat. change 4%nat with (2 + 2)%nat.
           rewrite goroutine_run_add. cbn [goroutine_run].
           rewrite Hload, Hcheck. exact Hres.
        -- exists 3%nat. change 3%nat with (2 + 1)%nat.
           rewrite goroutine_run_add. cbn [goroutine_run].
           rewrite Hload, Hcheck. exact Hres.
      * exists 2%nat. cbn [goroutine_run]. rewrite Hload, Hcheck. reflexivity.
  - rewrite bool_decide_eq_true_2 in Hload by reflexivity.
    pose proof (refresh_steps env ipAddr K R w HK) as Hres.
    destruct (refreshed env ipAddr (clock w) w) as [hn w'|msg].
    + exists 3%nat. change 3%nat with (1 + 2)%nat.
      rewrite goroutine_run_add. cbn [goroutine_run]. rewrite Hload.
      exact Hres.
    + exists 2%nat. change 2%nat with (1 + 1)%nat.
      rewrite goroutine_run_add. cbn [goroutine_run]. rewrite Hload.
      exact Hres.
Qed.

Lemma goroutine_run_then (env : Env) (k1 k2 : nat) (g g1 : goroutine)
      (w w1 : World) :
  goroutine_run env k1 g w = (g1, w1) ->
  goroutine_run env (k1 + k2) g w = goroutine_run env k2 g1 w1.
Proof. intros H. rewrite goroutine_run_add, H. reflexivity. Qed.

Lemma Read_binaryRecord_inl (buf rest : list byte) (r : binaryRecord) :
  Read_binaryRecord buf = (inl r, rest) ->
  (48 <= length buf)%nat /\ r = record_at buf 0 /\ rest = drop 48 buf.
Proof.
  intros Hread.
  destruct (Nat.lt_ge_cases (length buf) binaryRecord_size) as [Hlt|Hge].
  - rewrite Read_binaryRecord_short in Hread by exact Hlt. discriminate.
  - rewrite Read_binaryRecord_enough in Hread by exact Hge.
    injection Hread as <- <-. split; [exact Hge|]. split; reflexivity.
Qed.

(** The loop of [handlePacket] is what the goroutine's steps do one after
    the other, as long as the channel has room for the records. *)
Lemma loop_steps (env : Env) (h : header) (a : UDPAddr) :
  forall (n : nat) (buf : list byte) (w : World),
    (length (outputChannel w) + complete_records buf <= channel_capacity)%nat ->
    exists k : nat,
      match handlePacket_loop env n h buf a w with
      | Ok _ w' => goroutine_run env k (AtLoop n h buf a) w = (Finished, w')
      | Panic msg =>
          fst (goroutine_run env k (AtLoop n h buf a) w) = Crashed msg
      end.
Proof.
  induction n as [|n IH]; intros buf w Hroom.
  - exists 1%nat. reflexivity.
  - destruct (Read_binaryRecord buf) as [[record|err] rest] eqn:Hread.
    + rewrite (handlePacket_loop_step env n h record buf rest a w Hread).
      assert (Hfirst : goroutine_run env 1 (AtLoop (S n) h buf a) w
                       = (AtSrc LLoad n h record rest a, w))
        by (cbn [goroutine_run goroutine_step]; rewrite Hread; reflexivity).
      apply Read_binaryRecord_inl in Hread as (Hlen & _ & ->).
      rewrite decodeRecord_run.
      destruct (lookup_steps env _ _ _ w
                  (in_lookup_src env n h record (drop 48 buf) a)) as (k1 & H1).
      destruct (lookUpWithCache env _ w) as [s w1|msg] eqn:Hsrc.
      2:{ exists (1 + k1)%nat.
          rewrite (goroutine_run_then env 1 k1 _ _ _ _ Hfirst). exact H1. }
      destruct (lookup_steps env _ _ _ w1
                  (in_lookup_dst env s n h record (drop 48 buf) a))
        as (k2 & H2).
      destruct (lookUpWithCache env _ w1) as [t w2|msg] eqn:Hdst.
      2:{ exists (1 + (k1 + k2))%nat.
          rewrite (goroutine_run_then env 1 _ _ _ _ _ Hfirst).
          rewrite (goroutine_run_then env k1 k2 _ _ _ _ H1). exact H2. }
      apply lookUpWithCache_frame in Hsrc as [_ Hc1].
      apply lookUpWithCache_frame in Hdst as [_ Hc2].
      pose proof (complete_records_drop buf Hlen) as Hk.
      change binaryRecord_size with 48%nat in Hk.
      assert (Hsend : goroutine_run env 1
                        (AtSend (enrich env h record a s t) n h (drop 48 buf) a)
                        w2
                      = (AtLoop n h (drop 48 buf) a,
                         mkWorld (cache w2) (clock w2) (lookups w2) (logs w2)
                                 (outputChannel w2
                                  ++ [enrich env h record a s t]))).
      { cbn [goroutine_run goroutine_step].
        rewrite (proj2 (Nat.ltb_lt _ _)) by (rewrite Hc2, Hc1; lia).
        reflexivity. }
      destruct (IH (drop 48 buf)
                  (mkWorld (cache w2) (clock w2) (lookups w2) (logs w2)
                     (outputChannel w2 ++ [enrich env h record a s t])))
        as (k3 & H3).
      { cbn [outputChannel]. rewrite length_app, Hc2, Hc1. cbn [length].
        lia. }
      exists (1 + (k1 + (k2 + (1 + k3))))%nat.
      rewrite (goroutine_run_then env 1 _ _ _ _ _ Hfirst).
      rewrite (goroutine_run_then env k1 _ _ _ _ _ H1).
      rewrite (goroutine_run_then env k2 _ _ _ _ _ H2).
      rewrite (goroutine_run_then env 1 _ _ _ _ _ Hsend).
      exact H3.
    + exists 1%nat. cbn [handlePacket_loop goroutine_run goroutine_step].
      rewrite Hread. reflexivity.
Qed.

(** A goroutine left alone does what [handlePacket] does: when the channel
    has room for every record the datagram can yield, some number of steps
    takes it from the start to the end of [handlePacket] with the same final
    state, or to the same panic. *)
Theorem goroutine_refines_handlePacket (env : Env) (buf : list byte)
        (a : UDPAddr) (w : World) :
  (length (outputChannel w) + complete_records (drop 24 buf) <= 100)%nat ->
  exists k : nat,
    match handlePacket env buf a w with
    | Ok _ w' => goroutine_run env k (AtHeader buf a) w = (Finished, w')
    | Panic msg => fst (goroutine_run env k (AtHeader buf a) w) = Crashed msg
    end.
Proof.
  intros Hroom. unfold handlePacket.
  destruct (Read_header buf) as [[h|err] rest] eqn:Hread.
  - assert (Hfirst : goroutine_run env 1 (AtHeader buf a) w
                     = (AtLoop (Z.to_nat (FlowRecords h)) h rest a, w))
      by (cbn [goroutine_run goroutine_step]; rewrite Hread; reflexivity).
    assert (Hrest : rest = drop 24 buf).
    { unfold Read_header, ReadFull in Hread.
      destruct buf as [|b bs]; [discriminate|].
      destruct (length (b :: bs) <? header_size)%nat; [discriminate|].
      injection Hread as _ <-. reflexivity. }
    subst rest.
    destruct (loop_steps env h a (Z.to_nat (FlowRecords h)) (drop 24 buf) w
                Hroom) as (k & Hk).
    exists (1 + k)%nat.
    rewrite (goroutine_run_then env 1 _ _ _ _ _ Hfirst). exact Hk.
  - exists 1%nat. cbn [goroutine_run goroutine_step]. rewrite Hread.
    reflexivity.
Qed.

Lemma goroutine_refines_handlePacket_witness :
  (length (outputChannel World_init)
   + complete_records (drop 24 truncated_datagram) <= 100)%nat /\
  exists k : nat,
    goroutine_run sample_env k (AtHeader truncated_datagram sample_addr)
                  World_init
    = (Finished,
       mkWorld
         (<["10.0.0.2" := mkCacheRecord "10.0.0.2"
                            (mkTime (1001 + nanoseconds_per_day) Local)]>
            (<["10.0.0.1" := mkCacheRecord "gw.example."
                               (mkTime (1000 + nanoseconds_per_day) Local)]> ∅))
         2 ["10.0.0.1"; "10.0.0.2"] ["binary.Read failed: unexpected EOF"]
         [with_header (set_FlowRecords 2) sample_decoded]).
Proof.
  assert (Hroom : (length (outputChannel World_init)
                   + complete_records (drop 24 truncated_datagram) <= 100)%nat)
    by (vm_compute; lia).
  split; [exact Hroom|].
  exact (goroutine_refines_handlePacket sample_env truncated_datagram
           sample_addr World_init Hroom).
Defined.

(** *** Any interleaving *)

Lemma run_app (env : Env) (sys : System) (s1 s2 : list actor) :
  run env sys (s1 ++ s2) = run env (run env sys s1) s2.
Proof. unfold run. apply fold_left_app. Qed.

Lemma run_invariant (env : Env) (P : System -> Prop) :
  (forall (sys : System) (who : actor), P sys -> P (system_step env sys who)) ->
  forall (schedule : list actor) (sys : System),
    P sys -> P (run env sys schedule).
Proof.
  intros Hstep schedule.
  induction schedule as [|who schedule IH]; intros sys HP; [exact HP|].
  cbn [run fold_left]. apply IH, Hstep, HP.
Qed.














Lemma lookup_step_cache (env : Env) (ipAddr : string) (pc : lookup_pc)
      (w w' : World) (next : lookup_next) :
  lookup_step env ipAddr pc w = Ok next w' ->
  (cache_wf w -> cache_wf w') /\ cache_grows w w'.
Proof.
  assert (Hsame : forall v : World,
            cache v = cache w -> (cache_wf w -> cache_wf v) /\ cache_grows w v).
  { intros v Hv. split.
    - intros Hwf key e He. rewrite Hv in He. exact (Hwf key e He).
    - intros key Hkey. rewrite Hv. exact Hkey. }
  destruct pc as [|e| |hostname]; cbn; unfold bind, ret, cache_load, time_Now,
    net_LookupAddr, cache_store; cbn.
  - intros H. injection H as _ <-. apply Hsame. reflexivity.
  - intros H. injection H as _ <-. apply Hsame. reflexivity.
  - destruct (snd (resolver env (length (lookups w)) ipAddr)).
    + cbn. intros H. injection H as _ <-. apply Hsame. reflexivity.
    + destruct (fst (resolver env (length (lookups w)) ipAddr)); cbn;
        [discriminate|].
      intros H. injection H as _ <-. apply Hsame. reflexivity.
  - intros H. injection H as _ <-. split.
    + intros Hwf key e He. cbn [cache] in He.
      destruct (decide (ipAddr = key)) as [->|Hne].
      * rewrite lookup_insert_eq in He. injection He as <-. discriminate.
      * rewrite lookup_insert_ne in He by exact Hne. exact (Hwf key e He).
    + intros key Hkey. cbn [cache].
      destruct (decide (ipAddr = key)) as [->|Hne].
      * rewrite lookup_insert_eq. eexists. reflexivity.
      * rewrite lookup_insert_ne by exact Hne. exact Hkey.
Qed.

Lemma goroutine_step_cache (env : Env) (g : goroutine) (w : World) :
  (cache_wf w -> cache_wf (snd (goroutine_step env g w))) /\
  cache_grows w (snd (goroutine_step env g w)).
Proof.
  assert (Hsame : forall v : World,
            cache v = cache w -> (cache_wf w -> cache_wf v) /\ cache_grows w v).
  { intros v Hv. split.
    - intros Hwf key e He. rewrite Hv in He. exact (Hwf key e He).
    - intros key Hkey. rewrite Hv. exact Hkey. }
  destruct g as [buf a|n h buf a|pc n h r buf a|pc s n h r buf a|d n h buf a| |msg];
    cbn [goroutine_step].
  - destruct (Read_header buf) as [[h|err] rest]; apply Hsame; reflexivity.
  - destruct n as [|n]; [apply Hsame; reflexivity|].
    destruct (Read_binaryRecord buf) as [[r|err] rest]; apply Hsame;
      reflexivity.
  - destruct (lookup_step env _ pc w) as [[pc'|s] w'|msg] eqn:Hstep; cbn [snd];
      [eapply lookup_step_cache; exact Hstep
      |eapply lookup_step_cache; exact Hstep
      |apply Hsame; reflexivity].
  - destruct (lookup_step env _ pc w) as [[pc'|t] w'|msg] eqn:Hstep; cbn [snd];
      [eapply lookup_step_cache; exact Hstep
      |eapply lookup_step_cache; exact Hstep
      |apply Hsame; reflexivity].
  - destruct (length (outputChannel w) <? channel_capacity)%nat; apply Hsame;
      reflexivity.
  - apply Hsame. reflexivity.
  - apply Hsame. reflexivity.
Qed.

(** Whatever the handlers do and in whatever order, the cache only grows:
    no key is ever removed from it, and no entry is ever the zero record
    (which a load would take for a missing key). *)
Theorem cache_only_grows (env : Env) (sys : System) (schedule : list actor) :
  cache_wf (shared sys) ->
  cache_wf (shared (run env sys schedule)) /\
  cache_grows (shared sys) (shared (run env sys schedule)).
Proof.
  intros Hwf.
  apply (run_invariant env
           (fun s => cache_wf (shared s) /\ cache_grows (shared sys) (shared s))).
  - intros s who [Hs Hgrow]. unfold system_step.
    destruct (existsb is_crashed (goroutines s)); [split; assumption|].
    destruct who as [i|].
    + destruct (goroutines s !! i) as [g|]; [|split; assumption].
      destruct (goroutine_step_cache env g (shared s)) as [Hwf' Hgrow'].
      destruct (goroutine_step env g (shared s)) as [g' w'].
      cbn [snd] in Hwf', Hgrow'. cbn [shared]. split.
      * apply Hwf', Hs.
      * intros key Hkey. apply Hgrow', Hgrow, Hkey.
    + destruct (outputChannel (shared s)); [split; assumption|].
      cbn [shared]. split.
      * intros key e He. exact (Hs key e He).
      * intros key Hkey. exact (Hgrow key Hkey).
  - split; [exact Hwf|]. intros key Hkey. exact Hkey.
Qed.

Lemma system_step_handler (env : Env) (gs : list goroutine) (w w' : World)
      (rec : list decodedRecord) (log : list (nat * decodedRecord))
      (i : nat) (g g' : goroutine) :
  existsb is_crashed gs = false ->
  gs !! i = Some g ->
  goroutine_step env g w = (g', w') ->
  system_step env (mkSystem gs w rec log) (Handler i)
  = mkSystem (<[i := g']> gs) w' rec
             (log ++ match sends g w with
                     | Some d => [(i, d)]
                     | None => []
                     end).
Proof.
  intros Hlive Hi Hstep. unfold system_step. cbn [goroutines shared].
  rewrite Hlive, Hi, Hstep. reflexivity.
Qed.

Lemma load_miss (env : Env) (ipAddr : string) (w : World) :
  cache w !! ipAddr = None ->
  lookup_step env ipAddr LLoad w = Ok (Going LResolve) w.
Proof.
  intros Hmiss. cbn. unfold bind, cache_load, ret. rewrite Hmiss. cbn.
  destruct w. reflexivity.
Qed.

Lemma load_entry (env : Env) (ipAddr : string) (w : World) (e : cacheRecord) :
  cache w !! ipAddr = Some e -> e <> cacheRecord_zero ->
  lookup_step env ipAddr LLoad w = Ok (Going (LCheck e)) w.
Proof.
  intros Hhit Hne. cbn. unfold bind, cache_load, ret. rewrite Hhit. cbn.
  rewrite bool_decide_eq_false_2 by exact Hne. reflexivity.
Qed.

Lemma resolve_step (env : Env) (ipAddr : string) (w : World) :
  resolver_ok env ->
  lookup_step env ipAddr LResolve w
  = Ok (Going (LStore (resolved_name ipAddr
                         (resolver env (length (lookups w)) ipAddr))))
       (mkWorld (cache w) (clock w) (lookups w ++ [ipAddr]) (logs w)
                (outputChannel w)).
Proof.
  intros Hok. cbn. unfold bind, net_LookupAddr, resolved_name. cbn.
  destruct (resolver env (length (lookups w)) ipAddr) as [names [err|]] eqn:Hr;
    cbn; [reflexivity|].
  destruct names as [|name names]; [|reflexivity].
  exfalso. exact (Hok _ _ _ Hr eq_refl).
Qed.

(** The lock of [lookUpWithCache] covers the load and the store, not what
    lies between them: two handlers that both load a missing address before
    either stores it both ask the resolver, while one after the other they
    ask once (the second finds the entry of the first, provided the clock
    has not passed the expiry that the first stored). *)
Theorem lookUpWithCache_race (env : Env) (w : World)
        (n1 n2 : nat) (h1 h2 : header) (r1 r2 : binaryRecord)
        (b1 b2 : list byte) (a1 a2 : UDPAddr)
        (rec : list decodedRecord) (log : list (nat * decodedRecord)) :
  let ipAddr := IP_String env (intToIPv4Addr (Ipv4SrcAddrInt r1)) in
  let sys := mkSystem [AtSrc LLoad n1 h1 r1 b1 a1; AtSrc LLoad n2 h2 r2 b2 a2]
                      w rec log in
  Ipv4SrcAddrInt r2 = Ipv4SrcAddrInt r1 ->
  cache w !! ipAddr = None ->
  resolver_ok env ->
  clock_reading env (S (clock w))
  <= instant (Time_AddDate_0_0_1 env
                (mkTime (clock_reading env (clock w)) Local)) ->
  lookups (shared (run env sys [Handler 0; Handler 1; Handler 0; Handler 1]))
  = lookups w ++ [ipAddr; ipAddr] /\
  lookups (shared (run env sys [Handler 0; Handler 0; Handler 0;
                                Handler 1; Handler 1]))
  = lookups w ++ [ipAddr].
Proof.
  intros ipAddr sys Haddr Hmiss Hok Hclock.
  set (w1 := mkWorld (cache w) (clock w) (lookups w ++ [ipAddr]) (logs w)
                     (outputChannel w)).
  set (hn := resolved_name ipAddr (resolver env (length (lookups w)) ipAddr)).
  assert (Hload1 : goroutine_step env (AtSrc LLoad n1 h1 r1 b1 a1) w
                   = (AtSrc LResolve n1 h1 r1 b1 a1, w)).
  { cbn [goroutine_step]. fold ipAddr. rewrite (load_miss env ipAddr w Hmiss).
    reflexivity. }
  assert (Hload2 : goroutine_step env (AtSrc LLoad n2 h2 r2 b2 a2) w
                   = (AtSrc LResolve n2 h2 r2 b2 a2, w)).
  { cbn [goroutine_step]. rewrite Haddr. fold ipAddr.
    rewrite (load_miss env ipAddr w Hmiss). reflexivity. }
  assert (Hres1 : goroutine_step env (AtSrc LResolve n1 h1 r1 b1 a1) w
                  = (AtSrc (LStore hn) n1 h1 r1 b1 a1, w1)).
  { cbn [goroutine_step]. fold ipAddr. rewrite (resolve_step env ipAddr w Hok).
    reflexivity. }
  split.
  - set (hn' := resolved_name ipAddr
                  (resolver env (length (lookups w1)) ipAddr)).
    assert (Hres2 : goroutine_step env (AtSrc LResolve n2 h2 r2 b2 a2) w1
                    = (AtSrc (LStore hn') n2 h2 r2 b2 a2,
                       mkWorld (cache w1) (clock w1) (lookups w1 ++ [ipAddr])
                               (logs w1) (outputChannel w1))).
    { cbn [goroutine_step]. rewrite Haddr. fold ipAddr.
      rewrite (resolve_step env ipAddr w1 Hok). reflexivity. }
    unfold run, sys. cbn [fold_left].
    erewrite system_step_handler; [|reflexivity|reflexivity|exact Hload1].
    cbn [list_insert insert].
    erewrite system_step_handler; [|reflexivity|reflexivity|exact Hload2].
    cbn [list_insert insert].
    erewrite system_step_handler; [|reflexivity|reflexivity|exact Hres1].
    cbn [list_insert insert].
    erewrite system_step_handler; [|reflexivity|reflexivity|exact Hres2].
    cbn [shared lookups w1]. rewrite <- app_assoc. reflexivity.
  - set (e := mkCacheRecord hn
                (Time_AddDate_0_0_1 env
                   (mkTime (clock_reading env (clock w)) Local))).
    set (w2 := mkWorld (<[ipAddr := e]> (cache w)) (S (clock w))
                       (lookups w ++ [ipAddr]) (logs w) (outputChannel w)).
    assert (Hstore : goroutine_step env (AtSrc (LStore hn) n1 h1 r1 b1 a1) w1
                     = (AtDst LLoad hn n1 h1 r1 b1 a1, w2))
      by reflexivity.
    assert (Hhit : goroutine_step env (AtSrc LLoad n2 h2 r2 b2 a2) w2
                   = (AtSrc (LCheck e) n2 h2 r2 b2 a2, w2)).
    { cbn [goroutine_step]. rewrite Haddr. fold ipAddr.
      rewrite (load_entry env ipAddr w2 e).
      - reflexivity.
      - cbn [cache w2]. apply lookup_insert_eq.
      - discriminate. }
    assert (Hcheck : goroutine_step env (AtSrc (LCheck e) n2 h2 r2 b2 a2) w2
                     = (AtDst LLoad hn n2 h2 r2 b2 a2, tick w2)).
    { cbn [goroutine_step lookup_step]. unfold bind, time_Now, ret, Time_After.
      cbn [instant timeout e clock w2].
      rewrite (proj2 (Z.ltb_ge _ _)) by exact Hclock. reflexivity. }
    unfold run, sys. cbn [fold_left].
    erewrite system_step_handler; [|reflexivity|reflexivity|exact Hload1].
    cbn [list_insert insert].
    erewrite system_step_handler; [|reflexivity|reflexivity|exact Hres1].
    cbn [list_insert insert].
    erewrite system_step_handler; [|reflexivity|reflexivity|exact Hstore].
    cbn [list_insert insert].
    erewrite system_step_handler; [|reflexivity|reflexivity|exact Hhit].
    cbn [list_insert insert].
    erewrite system_step_handler; [|reflexivity|reflexivity|exact Hcheck].
    reflexivity.
Qed.


Lemma cache_only_grows_witness :
  cache_wf (shared (spawn two_datagrams World_init)) /\
  cache_wf (shared (run sample_env (spawn two_datagrams World_init)
                        taking_turns)) /\
  cache_grows (shared (spawn two_datagrams World_init))
              (shared (run sample_env (spawn two_datagrams World_init)
                           taking_turns)).
Proof.
  assert (Hwf : cache_wf (shared (spawn two_datagrams World_init)))
    by exact World_init_cache_wf.
  split; [exact Hwf|].
  exact (cache_only_grows sample_env (spawn two_datagrams World_init)
           taking_turns Hwf).
Defined.

Lemma lookUpWithCache_race_witness :
  Ipv4SrcAddrInt sample_record = Ipv4SrcAddrInt sample_record /\
  cache World_init !! "10.0.0.1" = None /\
  resolver_ok sample_env /\
  clock_reading sample_env 1
  <= instant (Time_AddDate_0_0_1 sample_env
                (mkTime (clock_reading sample_env 0) Local)) /\
  lookups (shared (run sample_env
                       (mkSystem [AtSrc LLoad 0 sample_header sample_record []
                                        sample_addr;
                                  AtSrc LLoad 0 sample_header sample_record []
                                        sample_addr]
                                 World_init [] [])
                       [Handler 0; Handler 1; Handler 0; Handler 1]))
  = ["10.0.0.1"; "10.0.0.1"] /\
  lookups (shared (run sample_env
                       (mkSystem [AtSrc LLoad 0 sample_header sample_record []
                                        sample_addr;
                                  AtSrc LLoad 0 sample_header sample_record []
                                        sample_addr]
                                 World_init [] [])
                       [Handler 0; Handler 0; Handler 0; Handler 1; Handler 1]))
  = ["10.0.0.1"].
Proof.
  assert (Haddr : Ipv4SrcAddrInt sample_record = Ipv4SrcAddrInt sample_record)
    by reflexivity.
  assert (Hmiss : cache World_init !! "10.0.0.1" = None) by reflexivity.
  assert (Hclock : clock_reading sample_env 1
                   <= instant (Time_AddDate_0_0_1 sample_env
                                 (mkTime (clock_reading sample_env 0) Local)))
    by (vm_compute; discriminate).
  split_and!; [exact Haddr|exact Hmiss|exact sample_env_resolver_ok
              |exact Hclock|..];
    apply (lookUpWithCache_race sample_env World_init 0 0 sample_header
             sample_header sample_record sample_record [] [] sample_addr
             sample_addr [] [] Haddr Hmiss sample_env_resolver_ok Hclock).
Defined.
